(** * Contact book and birthday scheduler ([main.py])

    A shallow embedding of the address-book core of [main.py]: the field
    validators, [Record], [AddressBook] and the birthday query, followed by
    the properties the specification states about them.

    Conventions of the embedding.
    - Python [int] is [Z]; Python [str] is [string].  The per-character
      tests behind [str.isalpha] and [str.isdigit] come from the Unicode
      database, which is not part of the program: they are section
      variables, so every result holds for any classification.
    - A raised exception is the [Raise] case of [result].  A method that
      mutates [self] is a function from the state before the call to the
      outcome and the state after it, so that what was mutated before a
      [raise] stays mutated.
    - The [dict] behind [UserDict] is an association list in insertion
      order with the update, lookup and deletion of a Python [dict].
    - [datetime.date] is a record of year, month and day;
      [datetime.now().date()] is the argument [today] of the query. *)

From Stdlib Require Import ZArith List String Ascii Bool Lia.
Import ListNotations.
Open Scope string_scope.
Open Scope Z_scope.

(** ** Exceptions and outcomes *)

Inductive exn : Type :=
| ValidationException (msg : string)
| KeyError (arg : string)
| ValueError
| OverflowError.

Inductive result (A : Type) : Type :=
| Ok (a : A)
| Raise (e : exn).
Arguments Ok {A} a.
Arguments Raise {A} e.

Definition rbind {A B : Type} (c : result A) (k : A -> result B) : result B :=
  match c with
  | Ok a => k a
  | Raise e => Raise e
  end.

Declare Scope result_scope.
Delimit Scope result_scope with result.
Notation "'let*' x ':=' c 'in' k" := (rbind c (fun x => k))
  (at level 61, x name, c at next level, right associativity) : result_scope.
Open Scope result_scope.

(** ** [datetime.date] *)

Module Date.

Record date : Type := mkdate { year : Z; month : Z; day : Z }.

Definition MINYEAR : Z := 1.
Definition MAXYEAR : Z := 9999.

(* year -> 1 if leap year, else 0 *)
Definition is_leap (y : Z) : bool :=
  (y mod 4 =? 0) && (negb (y mod 100 =? 0) || (y mod 400 =? 0)).

(* _DAYS_IN_MONTH = [-1, 31, 28, 31, 30, 31, 30, 31, 31, 30, 31, 30, 31] *)
Definition DAYS_IN_MONTH (m : Z) : Z :=
  match m with
  | 1 => 31 | 2 => 28 | 3 => 31 | 4 => 30 | 5 => 31 | 6 => 30
  | 7 => 31 | 8 => 31 | 9 => 30 | 10 => 31 | 11 => 30 | 12 => 31
  | _ => -1
  end.

(* _DAYS_BEFORE_MONTH: days of the months before [m] in a common year *)
Definition DAYS_BEFORE_MONTH (m : Z) : Z :=
  match m with
  | 1 => 0 | 2 => 31 | 3 => 59 | 4 => 90 | 5 => 120 | 6 => 151
  | 7 => 181 | 8 => 212 | 9 => 243 | 10 => 273 | 11 => 304 | 12 => 334
  | _ => -1
  end.

Definition days_in_month (y m : Z) : Z :=
  if (m =? 2) && is_leap y then 29 else DAYS_IN_MONTH m.

Definition days_before_year (y : Z) : Z :=
  let y := y - 1 in y * 365 + y / 4 - y / 100 + y / 400.

Definition days_before_month (y m : Z) : Z :=
  DAYS_BEFORE_MONTH m + (if (2 <? m) && is_leap y then 1 else 0).

(* _check_date_fields *)
Definition check_date_fields (y m d : Z) : bool :=
  (MINYEAR <=? y) && (y <=? MAXYEAR) &&
  (1 <=? m) && (m <=? 12) &&
  (1 <=? d) && (d <=? days_in_month y m).

(* date(year, month, day): ValueError when the fields are out of range *)
Definition date_new (y m d : Z) : result date :=
  if check_date_fields y m d then Ok (mkdate y m d) else Raise ValueError.

(* date.replace(year=y) *)
Definition replace_year (d : date) (y : Z) : result date :=
  date_new y (month d) (day d).

(* date.toordinal(): 1 for 0001-01-01 *)
Definition toordinal (d : date) : Z :=
  days_before_year (year d) + days_before_month (year d) (month d) + day d.

(* date.max = date(9999, 12, 31) and its ordinal *)
Definition date_max : date := mkdate 9999 12 31.
Definition MAXORDINAL : Z := 3652059.

(* date.weekday(): Monday is 0, Sunday is 6 *)
Definition weekday (d : date) : Z := (toordinal d + 6) mod 7.

(* d1 < d2: the (year, month, day) triples compared in order *)
Definition date_lt (a b : date) : bool :=
  (year a <? year b)
  || ((year a =? year b)
      && ((month a <? month b)
          || ((month a =? month b) && (day a <? day b)))).

Definition date_eqb (a b : date) : bool :=
  (year a =? year b) && (month a =? month b) && (day a =? day b).

(* (d1 - d2).days *)
Definition days_between (a b : date) : Z := toordinal a - toordinal b.

(* The day after [d] in the proleptic Gregorian calendar. *)
Definition tomorrow (d : date) : date :=
  if day d <? days_in_month (year d) (month d)
  then mkdate (year d) (month d) (day d + 1)
  else if month d <? 12
       then mkdate (year d) (month d + 1) 1
       else mkdate (year d + 1) 1 1.

(* d + timedelta(days=n) for n >= 0: the date n days after d;
   OverflowError when it would lie after date.max. *)
Fixpoint add_days (d : date) (n : nat) : result date :=
  match n with
  | O => Ok d
  | S n' => if date_eqb d date_max then Raise OverflowError
            else add_days (tomorrow d) n'
  end.

(* Decimal digits, zero padded, as strftime prints its numeric fields. *)
Definition digit (n : Z) : ascii := ascii_of_N (48 + Z.to_N (n mod 10)).

Definition pad2 (n : Z) : string :=
  String (digit (n / 10)) (String (digit n) EmptyString).

Definition pad4 (n : Z) : string :=
  String (digit (n / 1000)) (String (digit (n / 100)) (pad2 n)).

(* strftime("%d.%m.%Y"); %Y has four digits from the year 1000 on *)
Definition strftime_dmY (d : date) : string :=
  (pad2 (day d) ++ "." ++ pad2 (month d) ++ "." ++ pad4 (year d))%string.

(* strftime("%Y.%m.%d") *)
Definition strftime_Ymd (d : date) : string :=
  (pad4 (year d) ++ "." ++ pad2 (month d) ++ "." ++ pad2 (day d))%string.

Definition valid (d : date) : Prop :=
  check_date_fields (year d) (month d) (day d) = true.

End Date.
Import Date.

(** ** State-passing methods *)

(* A method over a mutable object of type [S]: the outcome of the call and
   the state of the object after it. *)
Definition M (S A : Type) : Type := S -> result A * S.

Definition ret {S A : Type} (a : A) : M S A := fun s => (Ok a, s).

Definition bind {S A B : Type} (c : M S A) (k : A -> M S B) : M S B :=
  fun s =>
    match c s with
    | (Ok a, s') => k a s'
    | (Raise e, s') => (Raise e, s')
    end.

Definition raise {S A : Type} (e : exn) : M S A := fun s => (Raise e, s).

Definition lift {S A : Type} (c : result A) : M S A := fun s => (c, s).

Definition gets {S A : Type} (f : S -> A) : M S A := fun s => (Ok (f s), s).

Definition modify {S : Type} (f : S -> S) : M S unit := fun s => (Ok tt, f s).

Declare Scope method_scope.
Delimit Scope method_scope with method.
Notation "x <- c ;; k" := (bind c (fun x => k))
  (at level 61, c at next level, right associativity) : method_scope.
Notation "c ;; k" := (bind c (fun _ => k))
  (at level 61, right associativity) : method_scope.
Open Scope method_scope.

(** ** [dict] with [str] keys, in insertion order *)

Section Dict.
Context {V : Type}.

Definition dict : Type := list (string * V).

(* d.get(k) *)
Fixpoint dict_get (k : string) (d : dict) : option V :=
  match d with
  | [] => None
  | (k', v) :: d' => if String.eqb k' k then Some v else dict_get k d'
  end.

(* d[k] = v: an existing key keeps its place, a new key goes last *)
Fixpoint dict_set (k : string) (v : V) (d : dict) : dict :=
  match d with
  | [] => [(k, v)]
  | (k', v') :: d' =>
      if String.eqb k' k then (k', v) :: d' else (k', v') :: dict_set k v d'
  end.

(* del d[k]: [None] stands for the KeyError of a missing key *)
Fixpoint dict_del (k : string) (d : dict) : option dict :=
  match d with
  | [] => None
  | (k', v') :: d' =>
      if String.eqb k' k then Some d'
      else option_map (cons (k', v')) (dict_del k d')
  end.

(* d.keys(), d.values() *)
Definition dict_keys (d : dict) : list string := map fst d.
Definition dict_values (d : dict) : list V := map snd d.

End Dict.
Arguments dict V : clear implicits.

(** ** Fields, records and the address book *)

(* class Record: [name] is [self.name.value], [phones] the values of the
   [Phone] objects of [self.phones], [birthday] is [self.birthday.value]
   when a birthday is set. *)
Record ContactRecord : Type := mkRecord {
  name : string;
  phones : list string;
  birthday : option date
}.

Definition set_phones (ps : list string) (r : ContactRecord) : ContactRecord :=
  mkRecord (name r) ps (birthday r).

(* One dictionary of the list returned by get_upcoming_birthdays. *)
Record entry : Type := mkEntry {
  entry_name : string;
  entry_birthday : string;
  entry_congratulation_date : string
}.

(* self.data of AddressBook(UserDict) *)
Definition AddressBook : Type := dict ContactRecord.

(* Truth value of a str in a condition. *)
Definition truthy (s : string) : bool := negb (String.eqb s "").

Fixpoint all_chars (f : ascii -> bool) (s : string) : bool :=
  match s with
  | EmptyString => true
  | String c s' => f c && all_chars f s'
  end.

(* Record.edit_phone: the for loop over self.phones *)
Fixpoint edit_phone_loop (old_phone new_phone : string) (ps : list string)
  : list string :=
  match ps with
  | [] => []
  | p :: ps' =>
      (if String.eqb p old_phone then new_phone else p)
        :: edit_phone_loop old_phone new_phone ps'
  end.

Definition edit_phone (old_phone new_phone : string) : M ContactRecord unit :=
  modify (fun r => set_phones (edit_phone_loop old_phone new_phone (phones r)) r).

(* Record.find_phone: the first Phone whose value is [phone].  The object
   returned is given by its position in self.phones. *)
Fixpoint find_phone_loop (phone : string) (ps : list string) (i : nat)
  : option nat :=
  match ps with
  | [] => None
  | p :: ps' =>
      if String.eqb p phone then Some i else find_phone_loop phone ps' (S i)
  end.

Definition find_phone (phone : string) : M ContactRecord (option nat) :=
  gets (fun r => find_phone_loop phone (phones r) 0).

(* list.remove(p) for the Phone object at position [i]: class Phone defines
   no __eq__, so the first element equal to p is p itself. *)
Fixpoint remove_nth (i : nat) (ps : list string) : list string :=
  match i, ps with
  | _, [] => []
  | O, _ :: ps' => ps'
  | S i', p :: ps' => p :: remove_nth i' ps'
  end.

(* Record.remove_phone: the for loop reads self.phones through an index
   [i] that advances by one each round, while the body removes from the
   same list.  [fuel] bounds the number of rounds. *)
Fixpoint remove_phone_iter (phone : string) (fuel i : nat) (ps : list string)
  : list string :=
  match fuel with
  | O => ps
  | S fuel' =>
      match nth_error ps i with
      | None => ps
      | Some p =>
          if String.eqb p phone
          then remove_phone_iter phone fuel' (S i) (remove_nth i ps)
          else remove_phone_iter phone fuel' (S i) ps
      end
  end.

Definition remove_phone (phone : string) : M ContactRecord unit :=
  modify (fun r =>
    set_phones (remove_phone_iter phone (List.length (phones r)) 0 (phones r)) r).

(* Record.show_birthday *)
Definition show_birthday (r : ContactRecord) : string :=
  match birthday r with
  | Some b => strftime_dmY b
  | None => "Birthday not set"
  end.

(* Record.__str__ *)
Definition Record_str (r : ContactRecord) : string :=
  let birthday_str :=
    match birthday r with
    | Some _ => (", birthday: " ++ show_birthday r)%string
    | None => ""
    end in
  ("Contact name: " ++ name r ++ ", phones: "
     ++ String.concat "; " (phones r) ++ birthday_str)%string.

(* record.method(...) for the object [record] that the dict holds under
   [key]: the object is shared with the dict, so its state after the call
   is the one the dict holds afterwards, whether or not the call raised. *)
Definition call {A : Type} (key : string) (record : ContactRecord)
    (m : M ContactRecord A) : M AddressBook A :=
  fun book =>
    let (res, record') := m record in (res, dict_set key record' book).

(* AddressBook.add_record *)
Definition add_record (record : ContactRecord) : M AddressBook unit :=
  modify (dict_set (name record) record).

(* AddressBook.find *)
Definition find (name : string) : M AddressBook (option ContactRecord) :=
  gets (dict_get name).

(* AddressBook.delete *)
Definition delete (name : string) : M AddressBook unit :=
  fun book =>
    match dict_del name book with
    | Some book' => (Ok tt, book')
    | None => (Raise (KeyError name), book)
    end.

(* AddressBook.change_contact *)
Definition change_contact (name old_phone new_phone : string)
  : M AddressBook string :=
  found <- find name ;;
  match found with
  | None => raise (KeyError "Contact not found.")
  | Some record =>
      call name record (edit_phone old_phone new_phone) ;;
      ret "Phone number updated."
  end.

(* AddressBook.show_phone *)
Definition show_phone (name : string) : M AddressBook string :=
  found <- find name ;;
  match found with
  | None => raise (KeyError "Contact not found.")
  | Some record => ret (String.concat "; " (phones record))
  end.

Definition newline : string := String (ascii_of_nat 10) EmptyString.

(* AddressBook.show_all *)
Definition show_all : M AddressBook string :=
  gets (fun book =>
    match book with
    | [] => "No contacts available."
    | _ => String.concat newline (map Record_str (dict_values book))
    end).

(** *** get_upcoming_birthdays *)

(* Lines 98-102: this year's birthday, moved to next year when in the past *)
Definition this_year_birthday (today birthday : date) : result date :=
  let* t := replace_year birthday (year today) in
  if date_lt t today then replace_year t (year today + 1) else Ok t.

(* Line 105 *)
Definition in_next_7_days (today t : date) : bool :=
  (0 <=? days_between t today) && (days_between t today <=? 7).

(* Lines 106-112: Saturday and Sunday move to Monday *)
Definition congratulation_date (t : date) : result date :=
  if weekday t =? 5 then add_days t 2
  else if weekday t =? 6 then add_days t 1
  else Ok t.

(* Lines 114-118: both strings are printed from congratulation_date *)
Definition make_entry (record : ContactRecord) (congratulation : date) : entry :=
  mkEntry (name record) (strftime_dmY congratulation)
          (strftime_Ymd congratulation).

(* The body of the for loop: what one record appends, if anything. *)
Definition upcoming_entry (today : date) (record : ContactRecord)
  : result (option entry) :=
  match birthday record with
  | None => Ok None
  | Some b =>
      let* t := this_year_birthday today b in
      if in_next_7_days today t
      then let* c := congratulation_date t in Ok (Some (make_entry record c))
      else Ok None
  end.

Fixpoint upcoming_loop (today : date) (records : list ContactRecord)
    (upcoming_birthdays : list entry) : result (list entry) :=
  match records with
  | [] => Ok upcoming_birthdays
  | record :: rest =>
      let* e := upcoming_entry today record in
      upcoming_loop today rest
        (match e with
         | Some x => upcoming_birthdays ++ [x]
         | None => upcoming_birthdays
         end)
  end.

Definition get_upcoming_birthdays (today : date)
  : M AddressBook (list entry) :=
  fun book => (upcoming_loop today (dict_values book) [], book).

(** *** What the specification says, in its own words *)

(* 4.2 editPhone: the first phone equal to [old] is replaced, the rest of
   the sequence is left as it is. *)
Fixpoint spec_edit_first (old new : string) (ps : list string) : list string :=
  match ps with
  | [] => []
  | p :: ps' =>
      if String.eqb p old then new :: ps' else p :: spec_edit_first old new ps'
  end.

(* 4.4 step 1: the birthday's month and day in year [y], when that is a
   date of the calendar. *)
Definition spec_occurrence (y : Z) (b : date) : option date :=
  if check_date_fields y (month b) (day b)
  then Some (mkdate y (month b) (day b)) else None.

(* 4.4 step 2: advanced to the next year when strictly earlier than today *)
Definition spec_next_occurrence (today b : date) : option date :=
  match spec_occurrence (year today) b with
  | None => None
  | Some t =>
      if toordinal t <? toordinal today
      then spec_occurrence (year today + 1) b
      else Some t
  end.

(* 4.4 step 3: 0 <= daysUntil <= 7 *)
Definition spec_qualifies (today b : date) : Prop :=
  exists t, spec_next_occurrence today b = Some t /\
            0 <= toordinal t - toordinal today <= 7.

(* The entry the specification asks for in 4.4 step 5. *)
Definition spec_entry (record : ContactRecord) (occurrence congratulation : date)
  : entry :=
  mkEntry (name record) (strftime_dmY occurrence) (strftime_Ymd congratulation).

(** *** Validators *)

(* The classification of the ASCII range, used to run the examples. *)
Definition ascii_isalpha (c : ascii) : bool :=
  let n := N_of_ascii c in
  (((65 <=? n) && (n <=? 90)) || ((97 <=? n) && (n <=? 122)))%N.

Definition ascii_isdigit (c : ascii) : bool :=
  let n := N_of_ascii c in ((48 <=? n) && (n <=? 57))%N.

(* White space of the ASCII range. *)
Definition ascii_isspace (c : ascii) : bool :=
  let n := N_of_ascii c in
  (((9 <=? n) && (n <=? 13)) || ((28 <=? n) && (n <=? 32)))%N.

(* Lower case of the ASCII range. *)
Definition ascii_lower (c : ascii) : ascii :=
  let n := N_of_ascii c in
  if ((65 <=? n) && (n <=? 90))%N then ascii_of_N (n + 32) else c.

(** *** Sample data *)

Definition monday_10_june : date := mkdate 2024 6 10.

Definition anna : ContactRecord :=
  mkRecord "Anna" ["1234567890"] (Some (mkdate 1990 6 15)).
Definition bob : ContactRecord := mkRecord "Bob" [] (Some (mkdate 1990 6 12)).
Definition carl : ContactRecord := mkRecord "Carl" [] None.
Definition leap : ContactRecord := mkRecord "Leap" [] (Some (mkdate 2000 2 29)).

Definition sample_book : AddressBook :=
  [("Anna", anna); ("Bob", bob); ("Carl", carl)].

Section Book.

(* One character of str.isalpha and of str.isdigit. *)
Variable char_isalpha : ascii -> bool.
Variable char_isdigit : ascii -> bool.

(* str.isalpha, str.isdigit: every character passes and there is one *)
Definition isalpha (s : string) : bool := truthy s && all_chars char_isalpha s.
Definition isdigit (s : string) : bool := truthy s && all_chars char_isdigit s.

(* Name.validate_name *)
Definition validate_name (value : string) : result unit :=
  if negb (isalpha value)
  then Raise (ValidationException "Name must contain only letters")
  else Ok tt.

(* Phone.validate_phone *)
Definition validate_phone (value : string) : result unit :=
  if negb (isdigit value) || negb (Z.of_nat (String.length value) =? 10)
  then Raise (ValidationException "Phone number must be 10 digits")
  else Ok tt.

(* Name(value), Phone(value): the value, once validated *)
Definition Name (value : string) : result string :=
  let* _ := validate_name value in Ok value.

Definition Phone (value : string) : result string :=
  let* _ := validate_phone value in Ok value.

(* Record.__init__ *)
Definition Record_init (name : string) : result ContactRecord :=
  let* n := Name name in Ok (mkRecord n [] None).

(* Record.add_phone *)
Definition add_phone (phone : string) : M ContactRecord unit :=
  p <- lift (Phone phone) ;;
  modify (fun r => set_phones (phones r ++ [p]) r).

(* Lines 130-131 of add_contact: if phone: record.add_phone(phone), for the
   record that the book holds under [name]. *)
Definition add_contact_phone (name : string) (record : ContactRecord)
    (phone : option string) : M AddressBook unit :=
  match phone with
  | Some p => if truthy p then call name record (add_phone p) else ret tt
  | None => ret tt
  end.

(* AddressBook.add_contact; [phone = None] is the default argument *)
Definition add_contact (name : string) (phone : option string)
  : M AddressBook string :=
  found <- find name ;;
  rm <- match found with
        | None =>
            record <- lift (Record_init name) ;;
            add_record record ;;
            ret (record, "Contact added.")
        | Some record => ret (record, "Contact updated.")
        end ;;
  add_contact_phone name (fst rm) phone ;;
  ret (snd rm).

(** *** The operations of the store as commands *)

Inductive op : Type :=
| AddContact (name : string) (phone : option string)
| AddRecord (record : ContactRecord)
| ChangeContact (name old_phone new_phone : string)
| Delete (name : string)
| Find (name : string)
| ShowPhone (name : string)
| ShowAll
| GetUpcomingBirthdays (today : date).

(* The store after the operation, whether it returned or raised. *)
Definition exec (o : op) (book : AddressBook) : AddressBook :=
  match o with
  | AddContact n p => snd (add_contact n p book)
  | AddRecord r => snd (add_record r book)
  | ChangeContact n o' p => snd (change_contact n o' p book)
  | Delete n => snd (delete n book)
  | Find n => snd (find n book)
  | ShowPhone n => snd (show_phone n book)
  | ShowAll => snd (show_all book)
  | GetUpcomingBirthdays t => snd (get_upcoming_birthdays t book)
  end.

(* A record handed to add_record was built by Record.__init__, which
   validated its name. *)
Definition op_ok (o : op) : Prop :=
  match o with
  | AddRecord r => isalpha (name r) = true
  | _ => True
  end.

(* Every key maps to a record of that name, and the name is alphabetic;
   the keys of a dict are distinct. *)
Definition store_inv (book : AddressBook) : Prop :=
  NoDup (dict_keys book) /\
  forall k r, In (k, r) book -> name r = k /\ isalpha k = true.


(** *** Stored phones *)

(* A phone that Phone(value) accepts. *)
Definition phone_ok (p : string) : Prop :=
  isdigit p = true /\ String.length p = 10%nat.

(* Every phone of every record of the book is one that Phone accepts. *)
Definition phones_valid (book : AddressBook) : Prop :=
  forall k r, In (k, r) book -> forall p, In p (phones r) -> phone_ok p.

(* The phones an operation brings in itself, without Phone(value). *)
Definition op_phones_ok (o : op) : Prop :=
  match o with
  | AddRecord r => forall p, In p (phones r) -> phone_ok p
  | ChangeContact _ _ new_phone => phone_ok new_phone
  | _ => True
  end.

(** *** parse_input *)

(* One character of str.strip and str.split (white space) and of
   str.lower. *)
Variable char_isspace : ascii -> bool.
Variable char_lower : ascii -> ascii.

Fixpoint lstrip (s : string) : string :=
  match s with
  | EmptyString => EmptyString
  | String c s' => if char_isspace c then lstrip s' else s
  end.

Fixpoint rstrip (s : string) : string :=
  match s with
  | EmptyString => EmptyString
  | String c s' =>
      match rstrip s' with
      | EmptyString => if char_isspace c then EmptyString else String c EmptyString
      | r => String c r
      end
  end.

(* str.strip() *)
Definition strip (s : string) : string := rstrip (lstrip s).

(* str.split(): the maximal runs of characters that are not white space;
   [tok] is the run being read. *)
Fixpoint split_ws (tok : string) (s : string) : list string :=
  match s with
  | EmptyString => if truthy tok then [tok] else []
  | String c s' =>
      if char_isspace c
      then (if truthy tok then tok :: split_ws EmptyString s'
            else split_ws EmptyString s')
      else split_ws (tok ++ String c EmptyString) s'
  end.

Definition split (s : string) : list string := split_ws EmptyString s.

(* str.lower() *)
Fixpoint lower (s : string) : string :=
  match s with
  | EmptyString => EmptyString
  | String c s' => String (char_lower c) (lower s')
  end.

(* parse_input; unpacking an empty list into cmd, *args is a ValueError *)
Definition parse_input (user_input : string) : result (string * list string) :=
  if negb (truthy (strip user_input)) then Ok ("", [])
  else
    match split user_input with
    | [] => Raise ValueError
    | cmd :: args => Ok (lower (strip cmd), map strip args)
    end.

(** ** Proof helpers *)

(* What the loop of remove_phone leaves: after a removal the element that
   moves into the freed position is passed over. *)
Fixpoint remove_skip (phone : string) (ps : list string) : list string :=
  match ps with
  | [] => []
  | p :: ps' =>
      if String.eqb p phone
      then match ps' with
           | [] => []
           | q :: ps'' => q :: remove_skip phone ps''
           end
      else p :: remove_skip phone ps'
  end.

Definition other_than (phone : string) (p : string) : bool :=
  negb (String.eqb p phone).

(* Strings without white space, and strings of white space only. *)
Definition no_space (s : string) : Prop :=
  all_chars (fun c => negb (char_isspace c)) s = true.

Definition blank (s : string) : Prop := all_chars char_isspace s = true.

Ltac boolprop :=
  repeat match goal with
  | H : _ && _ = true |- _ => apply andb_true_iff in H; destruct H
  | H : _ || _ = true |- _ => apply orb_true_iff in H; destruct H
  | H : _ && _ = false |- _ => apply andb_false_iff in H; destruct H
  | H : _ || _ = false |- _ => apply orb_false_iff in H; destruct H
  | H : negb _ = true |- _ => apply negb_true_iff in H
  | H : negb _ = false |- _ => apply negb_false_iff in H
  | H : (_ <=? _) = true |- _ => apply Z.leb_le in H
  | H : (_ <=? _) = false |- _ => apply Z.leb_gt in H
  | H : (_ <? _) = true |- _ => apply Z.ltb_lt in H
  | H : (_ <? _) = false |- _ => apply Z.ltb_ge in H
  | H : (_ =? _) = true |- _ => apply Z.eqb_eq in H
  | H : (_ =? _) = false |- _ => apply Z.eqb_neq in H
  end.

Ltac month_cases m :=
  let H := fresh "Hm" in
  assert (H : m = 1 \/ m = 2 \/ m = 3 \/ m = 4 \/ m = 5 \/ m = 6 \/
              m = 7 \/ m = 8 \/ m = 9 \/ m = 10 \/ m = 11 \/ m = 12) by lia;
  repeat (destruct H as [H | H]; [subst m | ]); [ .. | subst m].

(* Days of the year [y]. *)
Definition year_length (y : Z) : Z := if is_leap y then 366 else 365.

(* Evaluates the month tables at a literal month, leaving sums alone. *)
Ltac months :=
  cbv beta iota delta
    [days_before_month days_in_month DAYS_BEFORE_MONTH DAYS_IN_MONTH
     year_length Z.eqb Z.ltb Z.compare Pos.eqb Pos.compare Pos.compare_cont
     andb] in *.

(** * Properties *)

(** ** The calendar *)

Lemma valid_fields (d : date) :
  valid d <->
  1 <= year d <= 9999 /\ 1 <= month d <= 12 /\
  1 <= day d <= days_in_month (year d) (month d).
Proof.
  unfold valid, check_date_fields, MINYEAR, MAXYEAR. split.
  - intros H. boolprop. lia.
  - intros (Hy & Hm & Hd).
    repeat (apply andb_true_iff; split); apply Z.leb_le; lia.
Qed.

Lemma date_new_ok (y m d : Z) (x : date) :
  date_new y m d = Ok x -> x = mkdate y m d /\ valid x.
Proof.
  unfold date_new. destruct (check_date_fields y m d) eqn:E; [|discriminate].
  intros [= <-]. split; [reflexivity | exact E].
Qed.

Lemma days_before_year_succ (y : Z) :
  days_before_year (y + 1) = days_before_year y + year_length y.
Proof.
  unfold days_before_year, year_length, is_leap.
  replace (y + 1 - 1) with y by lia.
  destruct (y mod 4 =? 0) eqn:E4; destruct (y mod 100 =? 0) eqn:E100;
    destruct (y mod 400 =? 0) eqn:E400; simpl; boolprop;
    Z.div_mod_to_equations; lia.
Qed.

Lemma days_before_year_mono (y1 y2 : Z) :
  y1 <= y2 -> days_before_year y1 <= days_before_year y2.
Proof.
  intros H. unfold days_before_year. Z.div_mod_to_equations. lia.
Qed.

Lemma days_in_month_range (y m : Z) :
  1 <= m <= 12 -> 28 <= days_in_month y m <= 31.
Proof.
  intros H. month_cases m; try lia; months; destruct (is_leap y); lia.
Qed.

Lemma days_before_month_next (y m : Z) :
  1 <= m <= 11 ->
  days_before_month y (m + 1) = days_before_month y m + days_in_month y m.
Proof.
  intros H. month_cases m; try lia; months; destruct (is_leap y); reflexivity.
Qed.

Lemma days_before_month_mono (y m1 m2 : Z) :
  1 <= m1 -> m1 < m2 -> m2 <= 12 ->
  days_before_month y m1 + days_in_month y m1 <= days_before_month y m2.
Proof.
  intros H1 H2 H3.
  month_cases m1; try lia; month_cases m2; try lia;
    months; destruct (is_leap y); lia.
Qed.

Lemma days_before_month_last (y : Z) :
  days_before_month y 12 + days_in_month y 12 = year_length y.
Proof.
  months. destruct (is_leap y); reflexivity.
Qed.

(* The day of the year of a valid date lies within its year. *)
Lemma day_of_year_bounds (d : date) :
  valid d ->
  1 <= days_before_month (year d) (month d) + day d <= year_length (year d).
Proof.
  intros H. apply valid_fields in H. destruct H as (_ & Hm & Hd).
  destruct d as [y m dd]; simpl in *.
  rewrite <- (days_before_month_last y).
  assert (m = 12 \/ m < 12) as [-> | Hlt] by lia.
  - months. destruct (is_leap y); lia.
  - pose proof (days_before_month_mono y m 12 ltac:(lia) Hlt ltac:(lia)).
    revert Hd H. month_cases m; try lia; months; destruct (is_leap y); lia.
Qed.

Lemma toordinal_bounds (d : date) :
  valid d -> 1 <= toordinal d <= MAXORDINAL.
Proof.
  intros H. pose proof (day_of_year_bounds d H) as Hb.
  apply valid_fields in H. destruct H as (Hy & _ & _).
  unfold toordinal.
  pose proof (days_before_year_mono 1 (year d) ltac:(lia)) as Hlo.
  pose proof (days_before_year_mono (year d + 1) 10000 ltac:(lia)) as Hhi.
  rewrite days_before_year_succ in Hhi.
  change (days_before_year 1) with 0 in Hlo.
  change (days_before_year 10000) with 3652059 in Hhi.
  unfold MAXORDINAL. lia.
Qed.

(* The order of dates is the order of their ordinals. *)
Lemma date_lt_toordinal (a b : date) :
  valid a -> valid b -> date_lt a b = true -> toordinal a < toordinal b.
Proof.
  intros Ha Hb Hlt.
  pose proof (day_of_year_bounds a Ha) as Ba.
  pose proof (day_of_year_bounds b Hb) as Bb.
  apply valid_fields in Ha, Hb.
  destruct Ha as (_ & Hma & Hda). destruct Hb as (_ & Hmb & Hdb).
  unfold date_lt in Hlt. unfold toordinal.
  destruct a as [ya ma da], b as [yb mb db]; simpl in *.
  boolprop.
  - pose proof (days_before_year_mono (ya + 1) yb ltac:(lia)) as Hy.
    rewrite days_before_year_succ in Hy. lia.
  - subst yb.
    pose proof (days_before_month_mono ya ma mb ltac:(lia) ltac:(lia) ltac:(lia)).
    lia.
  - subst yb mb. lia.
Qed.

Lemma date_lt_total (a b : date) :
  date_lt a b = false -> a = b \/ date_lt b a = true.
Proof.
  unfold date_lt. destruct a as [ya ma da], b as [yb mb db]; simpl.
  intros H.
  destruct (Z.lt_trichotomy ya yb) as [Hy | [Hy | Hy]];
  destruct (Z.lt_trichotomy ma mb) as [Hm | [Hm | Hm]];
  destruct (Z.lt_trichotomy da db) as [Hd | [Hd | Hd]];
    try (left; subst; reflexivity);
    try (right;
         repeat first
           [ reflexivity
           | apply orb_true_iff;
             first [ left; apply Z.ltb_lt; lia
                   | right; apply andb_true_iff; split; [apply Z.eqb_eq; lia|] ]
           | apply Z.ltb_lt; lia ]; fail);
    exfalso; boolprop; lia.
Qed.

Lemma date_lt_iff (a b : date) :
  valid a -> valid b ->
  date_lt a b = (toordinal a <? toordinal b).
Proof.
  intros Ha Hb. destruct (date_lt a b) eqn:E; symmetry.
  - apply Z.ltb_lt. now apply date_lt_toordinal.
  - apply Z.ltb_ge. destruct (date_lt_total a b E) as [-> | H]; [lia|].
    pose proof (date_lt_toordinal b a Hb Ha H). lia.
Qed.

Lemma date_eqb_eq (a b : date) : date_eqb a b = true <-> a = b.
Proof.
  unfold date_eqb. destruct a as [ya ma da], b as [yb mb db]; simpl. split.
  - intros H. boolprop. congruence.
  - intros [= -> -> ->]. now rewrite !Z.eqb_refl.
Qed.

Lemma date_eqb_neq (a b : date) : date_eqb a b = false -> a <> b.
Proof.
  intros E Heq. apply date_eqb_eq in Heq. congruence.
Qed.

(* [tomorrow] is the next day: it stays in the calendar and its ordinal is
   one more. *)
Lemma tomorrow_spec (d : date) :
  valid d -> d <> date_max ->
  valid (tomorrow d) /\ toordinal (tomorrow d) = toordinal d + 1.
Proof.
  intros Hv Hmax. apply valid_fields in Hv. destruct Hv as (Hy & Hm & Hd).
  unfold tomorrow. destruct d as [y m dd]; simpl in Hy, Hm, Hd |- *.
  destruct (dd <? days_in_month y m) eqn:E1; boolprop.
  - split; [apply valid_fields; simpl; lia | unfold toordinal; simpl; lia].
  - assert (dd = days_in_month y m) as -> by lia.
    destruct (m <? 12) eqn:E2; boolprop.
    + split.
      * apply valid_fields; simpl.
        pose proof (days_in_month_range y (m + 1) ltac:(lia)). lia.
      * unfold toordinal; simpl.
        rewrite (days_before_month_next y m) by lia. lia.
    + assert (m = 12) as -> by lia.
      assert (y <> 9999) as Hy'.
      { intros ->. apply Hmax. unfold date_max. f_equal. }
      split.
      * apply valid_fields; simpl. months. lia.
      * unfold toordinal; simpl. rewrite days_before_year_succ.
        pose proof (days_before_month_last y). months.
        destruct (is_leap y); lia.
Qed.

Lemma add_days_spec (n : nat) (d : date) :
  valid d -> toordinal d + Z.of_nat n <= MAXORDINAL ->
  exists c, add_days d n = Ok c /\ valid c /\
            toordinal c = toordinal d + Z.of_nat n.
Proof.
  revert d. induction n as [|n IH]; intros d Hv Hle.
  - exists d. simpl. repeat split; [assumption | lia].
  - simpl add_days. destruct (date_eqb d date_max) eqn:E.
    + apply date_eqb_eq in E. subst d.
      change (toordinal date_max) with MAXORDINAL in Hle. lia.
    + pose proof (date_eqb_neq _ _ E) as Hne.
      destruct (tomorrow_spec d Hv Hne) as [Hv' Ho].
      destruct (IH (tomorrow d) Hv' ltac:(lia)) as (c & Hc & Hvc & Hoc).
      exists c. repeat split; [assumption .. | lia].
Qed.

(* [add_days] is date + timedelta: the ordinal of a date of the calendar
   determines it, and the sum overflows exactly past date.max. *)
Lemma toordinal_inj (a b : date) :
  valid a -> valid b -> toordinal a = toordinal b -> a = b.
Proof.
  intros Ha Hb Heq. destruct (date_lt a b) eqn:E.
  - pose proof (date_lt_toordinal a b Ha Hb E). lia.
  - destruct (date_lt_total a b E) as [-> | H]; [reflexivity|].
    pose proof (date_lt_toordinal b a Hb Ha H). lia.
Qed.

Lemma add_days_overflow (n : nat) (d : date) :
  valid d -> MAXORDINAL < toordinal d + Z.of_nat n ->
  add_days d n = Raise OverflowError.
Proof.
  revert d. induction n as [|n IH]; intros d Hv Hgt.
  - pose proof (toordinal_bounds d Hv). lia.
  - simpl add_days. destruct (date_eqb d date_max) eqn:E; [reflexivity|].
    pose proof (date_eqb_neq _ _ E) as Hne.
    destruct (tomorrow_spec d Hv Hne) as [Hv' Ho].
    apply IH; [assumption | lia].
Qed.

Lemma weekday_range (d : date) : 0 <= weekday d <= 6.
Proof. unfold weekday. pose proof (Z.mod_pos_bound (toordinal d + 6) 7). lia. Qed.

(* Lines 106-112 on any date of the calendar. *)
Lemma congratulation_date_spec (t : date) :
  valid t ->
  exists c, congratulation_date t = Ok c /\ valid c /\
    (weekday t = 5 -> toordinal c = toordinal t + 2) /\
    (weekday t = 6 -> toordinal c = toordinal t + 1) /\
    (0 <= weekday t <= 4 -> c = t) /\
    0 <= weekday c <= 4.
Proof.
  intros Hv. pose proof (toordinal_bounds t Hv) as Hb.
  pose proof (weekday_range t) as Hw.
  unfold congratulation_date, MAXORDINAL in *.
  destruct (weekday t =? 5) eqn:E5; [|destruct (weekday t =? 6) eqn:E6]; boolprop.
  - assert (toordinal t + Z.of_nat 2 <= MAXORDINAL) as Hle.
    { unfold weekday, MAXORDINAL in *. Z.div_mod_to_equations. lia. }
    destruct (add_days_spec 2 t Hv Hle) as (c & Hc & Hvc & Hoc).
    exists c. repeat split; try assumption; try lia.
    all: unfold weekday in *; rewrite Hoc; Z.div_mod_to_equations; lia.
  - assert (toordinal t + Z.of_nat 1 <= MAXORDINAL) as Hle.
    { unfold weekday, MAXORDINAL in *. Z.div_mod_to_equations. lia. }
    destruct (add_days_spec 1 t Hv Hle) as (c & Hc & Hvc & Hoc).
    exists c. repeat split; try assumption; try lia.
    all: unfold weekday in *; rewrite Hoc; Z.div_mod_to_equations; lia.
  - exists t. repeat split; try assumption; try lia.
Qed.

(** ** The birthday query *)

Lemma replace_year_occurrence (b : date) (y : Z) :
  replace_year b y =
  match spec_occurrence y b with Some t => Ok t | None => Raise ValueError end.
Proof.
  unfold replace_year, date_new, spec_occurrence.
  now destruct (check_date_fields y (month b) (day b)).
Qed.

Lemma spec_occurrence_some (y : Z) (b t : date) :
  spec_occurrence y b = Some t ->
  valid t /\ year t = y /\ month t = month b /\ day t = day b.
Proof.
  unfold spec_occurrence.
  destruct (check_date_fields y (month b) (day b)) eqn:E; [|discriminate].
  intros [= <-]. repeat split. exact E.
Qed.

Lemma spec_next_occurrence_some (today b t : date) :
  spec_next_occurrence today b = Some t ->
  valid t /\ month t = month b /\ day t = day b.
Proof.
  unfold spec_next_occurrence.
  destruct (spec_occurrence (year today) b) as [t0|] eqn:E0; [|discriminate].
  destruct (toordinal t0 <? toordinal today).
  - intros H. apply spec_occurrence_some in H. tauto.
  - intros [= <-]. apply spec_occurrence_some in E0. tauto.
Qed.

(* Lines 98-102 compute the next occurrence of the specification, and raise
   ValueError where it has none. *)
Lemma this_year_birthday_spec (today b : date) :
  valid today ->
  this_year_birthday today b =
  match spec_next_occurrence today b with
  | Some t => Ok t
  | None => Raise ValueError
  end.
Proof.
  intros Hv. unfold this_year_birthday, spec_next_occurrence.
  rewrite replace_year_occurrence.
  destruct (spec_occurrence (year today) b) as [t0|] eqn:E0; simpl; [|reflexivity].
  destruct (spec_occurrence_some _ _ _ E0) as (Hv0 & _ & Hm0 & Hd0).
  rewrite (date_lt_iff t0 today Hv0 Hv).
  destruct (toordinal t0 <? toordinal today); [|reflexivity].
  rewrite replace_year_occurrence.
  unfold spec_occurrence. now rewrite Hm0, Hd0.
Qed.

Lemma this_year_birthday_raise (today b : date) (e : exn) :
  this_year_birthday today b = Raise e -> e = ValueError.
Proof.
  unfold this_year_birthday, replace_year, date_new.
  destruct (check_date_fields (year today) (month b) (day b));
    simpl; [|congruence].
  destruct (date_lt _ today); [|discriminate].
  simpl. destruct (check_date_fields _ _ _); congruence.
Qed.

Lemma this_year_birthday_valid (today b t : date) :
  this_year_birthday today b = Ok t -> valid t.
Proof.
  unfold this_year_birthday.
  destruct (replace_year b (year today)) as [t0|] eqn:E0; simpl; [|discriminate].
  apply date_new_ok in E0. destruct E0 as [_ Hv0].
  destruct (date_lt t0 today).
  - intros H. apply date_new_ok in H. tauto.
  - now intros [= <-].
Qed.

Lemma in_next_7_days_iff (today t : date) :
  in_next_7_days today t = true <-> 0 <= toordinal t - toordinal today <= 7.
Proof.
  unfold in_next_7_days, days_between. rewrite andb_true_iff, !Z.leb_le. tauto.
Qed.

(* The loop body never raises anything but the ValueError of replace. *)
Lemma upcoming_entry_raise (today : date) (r : ContactRecord) (e : exn) :
  upcoming_entry today r = Raise e -> e = ValueError.
Proof.
  unfold upcoming_entry. destruct (birthday r) as [b|]; [|discriminate].
  destruct (this_year_birthday today b) as [t|e'] eqn:Et; simpl.
  - destruct (in_next_7_days today t); [|discriminate].
    destruct (congratulation_date_spec t (this_year_birthday_valid _ _ _ Et))
      as (c & -> & _).
    discriminate.
  - intros [= <-]. eapply this_year_birthday_raise; eassumption.
Qed.

Lemma upcoming_entry_some (today : date) (r : ContactRecord) (x : entry) :
  valid today ->
  upcoming_entry today r = Ok (Some x) ->
  entry_name x = name r /\
  exists b, birthday r = Some b /\ spec_qualifies today b.
Proof.
  intros Hv. unfold upcoming_entry.
  destruct (birthday r) as [b|]; [|discriminate].
  rewrite (this_year_birthday_spec today b Hv).
  destruct (spec_next_occurrence today b) as [t|] eqn:En; simpl; [|discriminate].
  destruct (in_next_7_days today t) eqn:E7; [|discriminate].
  destruct (congratulation_date t) as [c|]; simpl; [|discriminate].
  intros [= <-]. split; [reflexivity|].
  exists b. split; [reflexivity|].
  exists t. split; [assumption | now apply in_next_7_days_iff].
Qed.

Lemma upcoming_entry_qualifies (today b : date) (r : ContactRecord) :
  valid today -> birthday r = Some b -> spec_qualifies today b ->
  exists x, upcoming_entry today r = Ok (Some x) /\ entry_name x = name r.
Proof.
  intros Hv Hb (t & Ht & H7). unfold upcoming_entry. rewrite Hb.
  rewrite (this_year_birthday_spec today b Hv), Ht. simpl.
  rewrite (proj2 (in_next_7_days_iff today t) H7).
  destruct (spec_next_occurrence_some _ _ _ Ht) as (Hvt & _).
  destruct (congratulation_date_spec t Hvt) as (c & -> & _). simpl.
  eexists. split; reflexivity.
Qed.

Lemma upcoming_entry_defined (today : date) (r : ContactRecord) :
  valid today ->
  (forall b, birthday r = Some b -> spec_next_occurrence today b <> None) ->
  exists oe, upcoming_entry today r = Ok oe.
Proof.
  intros Hv Hdef. unfold upcoming_entry.
  destruct (birthday r) as [b|]; [|now eexists].
  specialize (Hdef b eq_refl).
  rewrite (this_year_birthday_spec today b Hv).
  destruct (spec_next_occurrence today b) as [t|] eqn:En; [|congruence].
  simpl. destruct (in_next_7_days today t); [|now eexists].
  destruct (spec_next_occurrence_some _ _ _ En) as (Hvt & _).
  destruct (congratulation_date_spec t Hvt) as (c & -> & _). simpl.
  now eexists.
Qed.

Lemma upcoming_loop_returns (today : date) (records : list ContactRecord) :
  forall acc,
  (forall r, In r records -> exists oe, upcoming_entry today r = Ok oe) ->
  exists out, upcoming_loop today records acc = Ok out.
Proof.
  induction records as [|r rest IH]; intros acc Hall; simpl.
  - now eexists.
  - destruct (Hall r (or_introl eq_refl)) as [oe ->]. simpl.
    apply IH. intros r' Hr'. apply Hall. now right.
Qed.

Lemma upcoming_loop_ok (today : date) (records : list ContactRecord) :
  forall acc out,
  upcoming_loop today records acc = Ok out ->
  forall x, In x out <->
    In x acc \/ exists r, In r records /\ upcoming_entry today r = Ok (Some x).
Proof.
  induction records as [|r rest IH]; intros acc out; simpl.
  - intros [= <-] x. split; [tauto | intros [H | (r & [] & _)]; exact H].
  - destruct (upcoming_entry today r) as [oe|] eqn:E; simpl; [|discriminate].
    intros H x. rewrite (IH _ _ H x). destruct oe as [y|].
    + rewrite in_app_iff. simpl. split.
      * intros [[Hx | [<- | []]] | (r' & Hr' & Hx)].
        -- now left.
        -- right. exists r. split; [now left | assumption].
        -- right. exists r'. split; [now right | assumption].
      * intros [Hx | (r' & [<- | Hr'] & Hx)].
        -- left. now left.
        -- left. right. left. congruence.
        -- right. exists r'. now split.
    + split.
      * intros [Hx | (r' & Hr' & Hx)]; [now left|].
        right. exists r'. split; [now right | assumption].
      * intros [Hx | (r' & [<- | Hr'] & Hx)]; [now left | congruence |].
        right. exists r'. now split.
Qed.

Lemma upcoming_loop_raises (today : date) (records : list ContactRecord) :
  forall acc r e,
  In r records -> upcoming_entry today r = Raise e ->
  upcoming_loop today records acc = Raise ValueError.
Proof.
  induction records as [|r0 rest IH]; intros acc r e Hin Hr; simpl.
  - destruct Hin.
  - destruct (upcoming_entry today r0) as [oe|e0] eqn:E0; simpl.
    + destruct Hin as [<- | Hin]; [congruence|]. eapply IH; eassumption.
    + now rewrite (upcoming_entry_raise _ _ _ E0).
Qed.

Lemma NoDup_map_inj {A B : Type} (f : A -> B) (l : list A) (a b : A) :
  NoDup (map f l) -> In a l -> In b l -> f a = f b -> a = b.
Proof.
  induction l as [|x l IH]; simpl; [tauto|].
  intros Hnd Ha Hb Hf. inversion Hnd as [|? ? Hnot Hnd']; subst.
  destruct Ha as [<- | Ha], Hb as [<- | Hb]; try reflexivity.
  - exfalso. apply Hnot. rewrite Hf. now apply in_map.
  - exfalso. apply Hnot. rewrite <- Hf. now apply in_map.
  - now apply IH.
Qed.

(** ** The dict *)

Section DictFacts.
Context {V : Type}.
Implicit Types (d : dict V) (k : string) (v : V).

Lemma dict_get_In d k v : dict_get k d = Some v -> In (k, v) d.
Proof.
  induction d as [|[k' v'] d IH]; simpl; [discriminate|].
  destruct (String.eqb_spec k' k) as [-> | Hne].
  - intros [= ->]. now left.
  - intros H. right. now apply IH.
Qed.

Lemma dict_get_None d k : dict_get k d = None <-> ~ In k (dict_keys d).
Proof.
  induction d as [|[k' v'] d IH]; simpl; [tauto|].
  destruct (String.eqb_spec k' k) as [-> | Hne].
  - split; [discriminate | intros H; exfalso; apply H; now left].
  - rewrite IH. tauto.
Qed.

Lemma dict_get_unique d k v :
  NoDup (dict_keys d) -> In (k, v) d -> dict_get k d = Some v.
Proof.
  induction d as [|[k' v'] d IH]; simpl; [tauto|].
  intros Hnd Hin. inversion Hnd as [|? ? Hnot Hnd']; subst.
  destruct Hin as [[= -> ->] | Hin].
  - now rewrite String.eqb_refl.
  - destruct (String.eqb_spec k' k) as [-> | Hne]; [|now apply IH].
    exfalso. apply Hnot. change k with (fst (k, v)). now apply in_map.
Qed.

(* Assigning to a missing key appends the item. *)
Lemma dict_set_new d k v :
  dict_get k d = None -> dict_set k v d = (d ++ [(k, v)])%list.
Proof.
  induction d as [|[k' v'] d IH]; simpl; [reflexivity|].
  destruct (String.eqb k' k); [discriminate|].
  intros H. now rewrite IH.
Qed.

(* Assigning the value a key already has changes nothing. *)
Lemma dict_set_same d k v : dict_get k d = Some v -> dict_set k v d = d.
Proof.
  induction d as [|[k' v'] d IH]; simpl; [discriminate|].
  destruct (String.eqb k' k).
  - now intros [= ->].
  - intros H. now rewrite IH.
Qed.

Lemma dict_get_set d k v : dict_get k (dict_set k v d) = Some v.
Proof.
  induction d as [|[k' v'] d IH]; simpl.
  - now rewrite String.eqb_refl.
  - destruct (String.eqb k' k) eqn:E; simpl; now rewrite E.
Qed.

Lemma dict_get_set_other d k k' v :
  k' <> k -> dict_get k' (dict_set k v d) = dict_get k' d.
Proof.
  intros Hne. induction d as [|[k0 v0] d IH]; simpl.
  - destruct (String.eqb_spec k k'); [congruence | reflexivity].
  - destruct (String.eqb_spec k0 k) as [-> | H0]; simpl.
    + destruct (String.eqb_spec k k'); [congruence | reflexivity].
    + now rewrite IH.
Qed.

Lemma dict_set_In d k v k' v' :
  In (k', v') (dict_set k v d) -> (k' = k /\ v' = v) \/ In (k', v') d.
Proof.
  induction d as [|[k0 v0] d IH]; simpl.
  - intros [[= <- <-] | []]. now left.
  - destruct (String.eqb_spec k0 k) as [-> | H0]; simpl.
    + intros [[= <- <-] | H]; [now left | right; now right].
    + intros [H | H]; [right; now left|].
      destruct (IH H) as [H' | H']; [now left | right; now right].
Qed.

Lemma dict_set_keys d k v :
  NoDup (dict_keys d) -> NoDup (dict_keys (dict_set k v d)).
Proof.
  unfold dict_keys.
  induction d as [|[k0 v0] d IH]; simpl.
  - intros _. constructor; [tauto | constructor].
  - intros Hnd. inversion Hnd as [|? ? Hnot Hnd']; subst.
    destruct (String.eqb_spec k0 k) as [-> | H0]; simpl.
    + now constructor.
    + constructor; [|now apply IH].
      intros Hin. apply in_map_iff in Hin. destruct Hin as ([k1 v1] & Hk & Hin).
      simpl in Hk. subst k1.
      destruct (dict_set_In _ _ _ _ _ Hin) as [[-> _] | Hin']; [congruence|].
      apply Hnot. change k0 with (fst (k0, v1)). now apply in_map.
Qed.

Lemma dict_del_In d d' k k' v' :
  dict_del k d = Some d' -> In (k', v') d' -> In (k', v') d.
Proof.
  revert d'. induction d as [|[k0 v0] d IH]; simpl; [discriminate|].
  intros d'. destruct (String.eqb k0 k).
  - intros [= <-] H. now right.
  - destruct (dict_del k d) as [d0|]; simpl; [|discriminate].
    intros [= <-] [H | H]; [now left | right; now apply (IH d0)].
Qed.

Lemma dict_del_keys d d' k :
  dict_del k d = Some d' -> NoDup (dict_keys d) -> NoDup (dict_keys d').
Proof.
  unfold dict_keys.
  revert d'. induction d as [|[k0 v0] d IH]; simpl; [discriminate|].
  intros d' Hdel Hnd. inversion Hnd as [|? ? Hnot Hnd']; subst.
  destruct (String.eqb k0 k).
  - now injection Hdel as <-.
  - destruct (dict_del k d) as [d0|] eqn:E; simpl in Hdel; [|discriminate].
    injection Hdel as <-. simpl. constructor; [|now apply IH].
    intros Hin. apply in_map_iff in Hin. destruct Hin as ([k1 v1] & Hk & Hin).
    simpl in Hk. subst k1. apply Hnot.
    change k0 with (fst (k0, v1)). apply in_map.
    eapply dict_del_In; eassumption.
Qed.

Lemma dict_del_None d k : dict_del k d = None <-> dict_get k d = None.
Proof.
  induction d as [|[k0 v0] d IH]; simpl; [tauto|].
  destruct (String.eqb k0 k); [split; discriminate|].
  destruct (dict_del k d); simpl; split; try discriminate; try tauto.
  intros H. apply IH in H. discriminate.
Qed.

End DictFacts.

(** ** Records *)

Lemma edit_phone_loop_length (old new : string) (ps : list string) :
  List.length (edit_phone_loop old new ps) = List.length ps.
Proof. induction ps as [|p ps IH]; simpl; congruence. Qed.

Lemma edit_phone_loop_nth (old new : string) (ps : list string) (i : nat) :
  nth_error (edit_phone_loop old new ps) i =
  option_map (fun p => if String.eqb p old then new else p) (nth_error ps i).
Proof.
  revert i. induction ps as [|p ps IH]; intros [|i]; simpl; auto.
Qed.

Lemma edit_phone_loop_absent (old new : string) (ps : list string) :
  ~ In old ps -> edit_phone_loop old new ps = ps.
Proof.
  induction ps as [|p ps IH]; simpl; [reflexivity|].
  intros H. destruct (String.eqb_spec p old) as [-> | Hne]; [tauto|].
  rewrite IH; tauto.
Qed.

Lemma set_phones_same (r : ContactRecord) : set_phones (phones r) r = r.
Proof. now destruct r. Qed.

Lemma edit_phone_absent (old new : string) (r : ContactRecord) :
  ~ In old (phones r) -> edit_phone old new r = (Ok tt, r).
Proof.
  intros H. unfold edit_phone, modify.
  now rewrite (edit_phone_loop_absent old new _ H), set_phones_same.
Qed.

Lemma all_chars_false_iff (f : ascii -> bool) (s : string) :
  all_chars f s = false <->
  exists c, In c (list_ascii_of_string s) /\ f c = false.
Proof.
  induction s as [|c s IH]; simpl.
  - split; [discriminate | intros (c & [] & _)].
  - rewrite andb_false_iff, IH. split.
    + intros [H | (c' & Hin & Hc')].
      * exists c. split; [now left | assumption].
      * exists c'. split; [now right | assumption].
    + intros (c' & [<- | Hin] & Hc'); [now left|].
      right. exists c'. now split.
Qed.

Lemma truthy_false_iff (s : string) : truthy s = false <-> s = "".
Proof.
  unfold truthy. destruct (String.eqb_spec s ""); simpl; split; congruence.
Qed.

(* A name is rejected when it is empty or has a character that is not
   alphabetic. *)
Lemma isalpha_false_iff (s : string) :
  isalpha s = false <->
  s = "" \/ exists c, In c (list_ascii_of_string s) /\ char_isalpha c = false.
Proof.
  unfold isalpha. now rewrite andb_false_iff, truthy_false_iff, all_chars_false_iff.
Qed.

Lemma Record_init_ok (n : string) :
  isalpha n = true -> Record_init n = Ok (mkRecord n [] None).
Proof.
  intros H. unfold Record_init, Name, validate_name. now rewrite H.
Qed.

(* A record built by Record.__init__ carries a validated name. *)
Lemma Record_init_name (n : string) (r : ContactRecord) :
  Record_init n = Ok r -> name r = n /\ isalpha (name r) = true.
Proof.
  unfold Record_init, Name, validate_name.
  destruct (isalpha n) eqn:E; simpl; [|discriminate].
  intros [= <-]. now split.
Qed.

Lemma Record_init_invalid (n : string) :
  isalpha n = false ->
  Record_init n = Raise (ValidationException "Name must contain only letters").
Proof.
  intros H. unfold Record_init, Name, validate_name. now rewrite H.
Qed.

Lemma validate_phone_invalid (p : string) :
  ~ (isdigit p = true /\ String.length p = 10%nat) ->
  validate_phone p = Raise (ValidationException "Phone number must be 10 digits").
Proof.
  intros H. unfold validate_phone.
  destruct (isdigit p) eqn:Ed; simpl; [|reflexivity].
  destruct (Z.of_nat (String.length p) =? 10) eqn:El; simpl; [|reflexivity].
  exfalso. apply H. split; [reflexivity|]. boolprop. lia.
Qed.

Lemma add_phone_name (p : string) (r r' : ContactRecord) (res : result unit) :
  add_phone p r = (res, r') -> name r' = name r.
Proof.
  unfold add_phone, bind, lift, modify.
  destruct (Phone p); intros [= _ <-]; reflexivity.
Qed.

Lemma add_phone_invalid (p : string) (r : ContactRecord) :
  ~ (isdigit p = true /\ String.length p = 10%nat) ->
  add_phone p r =
  (Raise (ValidationException "Phone number must be 10 digits"), r).
Proof.
  intros H. unfold add_phone, bind, lift, Phone.
  now rewrite (validate_phone_invalid p H).
Qed.

(** ** The store *)

Lemma store_inv_set (book : AddressBook) (k : string) (r : ContactRecord) :
  store_inv book -> name r = k -> isalpha k = true ->
  store_inv (dict_set k r book).
Proof.
  intros [Hnd Hall] Hn Ha. split; [now apply dict_set_keys|].
  intros k' r' Hin.
  destruct (dict_set_In _ _ _ _ _ Hin) as [[-> ->] | Hin']; [now split|].
  now apply Hall.
Qed.

Lemma store_inv_del (book book' : AddressBook) (k : string) :
  store_inv book -> dict_del k book = Some book' -> store_inv book'.
Proof.
  intros [Hnd Hall] Hdel. split; [eapply dict_del_keys; eassumption|].
  intros k' r' Hin. apply Hall. eapply dict_del_In; eassumption.
Qed.

Lemma store_inv_names (book : AddressBook) :
  store_inv book -> NoDup (map name (dict_values book)).
Proof.
  intros [Hnd Hall]. unfold dict_values, dict_keys in *.
  rewrite map_map. erewrite map_ext_in; [exact Hnd|].
  intros [k r] Hin. simpl. now apply Hall.
Qed.

Lemma add_contact_phone_preserves (n : string) (record : ContactRecord)
    (phone : option string) (book : AddressBook) :
  store_inv book -> name record = n -> isalpha n = true ->
  store_inv (snd (add_contact_phone n record phone book)).
Proof.
  intros Hinv Hn Ha. unfold add_contact_phone.
  destruct phone as [p|]; [destruct (truthy p)|]; try exact Hinv.
  unfold call. destruct (add_phone p record) as [res record'] eqn:E.
  apply add_phone_name in E. simpl.
  apply store_inv_set; congruence.
Qed.

(* add_contact, case by case. *)
Lemma add_contact_found (n : string) (phone : option string)
    (book : AddressBook) (record : ContactRecord) :
  dict_get n book = Some record ->
  add_contact n phone book =
  (add_contact_phone n record phone ;; ret "Contact updated.") book.
Proof.
  intros Eg. unfold add_contact, find, gets, bind at 1 2. now rewrite Eg.
Qed.

Lemma add_contact_new (n : string) (phone : option string)
    (book : AddressBook) :
  dict_get n book = None -> isalpha n = true ->
  add_contact n phone book =
  (add_contact_phone n (mkRecord n [] None) phone ;; ret "Contact added.")
    (dict_set n (mkRecord n [] None) book).
Proof.
  intros Eg Ha.
  unfold add_contact, find, gets, lift, add_record, modify, bind at 1 2 3 4.
  now rewrite Eg, (Record_init_ok n Ha).
Qed.

Lemma add_contact_invalid_name (n : string) (phone : option string)
    (book : AddressBook) :
  dict_get n book = None -> isalpha n = false ->
  add_contact n phone book =
  (Raise (ValidationException "Name must contain only letters"), book).
Proof.
  intros Eg Ha.
  unfold add_contact, find, gets, lift, add_record, modify, bind at 1 2 3 4.
  now rewrite Eg, (Record_init_invalid n Ha).
Qed.

Lemma bind_snd {S A B : Type} (P : S -> Prop) (c : M S A) (k : A -> M S B)
    (s : S) :
  P (snd (c s)) -> (forall a, P (snd (k a (snd (c s))))) ->
  P (snd (bind c k s)).
Proof.
  intros Hc Hk. unfold bind. destruct (c s) as [[a|e] s']; simpl in *.
  - apply Hk.
  - exact Hc.
Qed.

Lemma add_contact_preserves (n : string) (phone : option string)
    (book : AddressBook) :
  store_inv book -> store_inv (snd (add_contact n phone book)).
Proof.
  intros Hinv. destruct (dict_get n book) as [record|] eqn:Eg.
  - rewrite (add_contact_found _ _ _ _ Eg).
    apply dict_get_In in Eg. destruct (proj2 Hinv _ _ Eg) as [Hn Ha].
    apply bind_snd; [|intros _; simpl];
      now apply add_contact_phone_preserves.
  - destruct (isalpha n) eqn:Ea.
    + rewrite (add_contact_new _ _ _ Eg Ea).
      assert (store_inv (dict_set n (mkRecord n [] None) book)) as Hinv'
        by now apply store_inv_set.
      apply bind_snd; [|intros _; simpl];
        now apply add_contact_phone_preserves.
    + now rewrite (add_contact_invalid_name _ _ _ Eg Ea).
Qed.

Lemma change_contact_preserves (n old new : string) (book : AddressBook) :
  store_inv book -> store_inv (snd (change_contact n old new book)).
Proof.
  intros Hinv. unfold change_contact, bind, find, gets.
  destruct (dict_get n book) as [record|] eqn:Eg; [|exact Hinv].
  apply dict_get_In in Eg. destruct (proj2 Hinv _ _ Eg) as [Hn Ha].
  unfold call, edit_phone, modify, ret. simpl.
  now apply store_inv_set.
Qed.

Lemma delete_preserves (n : string) (book : AddressBook) :
  store_inv book -> store_inv (snd (delete n book)).
Proof.
  intros Hinv. unfold delete.
  destruct (dict_del n book) as [book'|] eqn:E; [|exact Hinv].
  eapply store_inv_del; eassumption.
Qed.

(** * The claims *)

(** C1, as the code has it.  Whenever get_upcoming_birthdays returns a
    list, then for every record with a set birthday the list has an entry
    of that record if and only if its next occurrence qualifies: the
    occurrence is the birthday's month and day in today's year, moved to the
    next year exactly when it is strictly earlier than today, and it
    qualifies exactly when [0 <= occurrence - today <= 7] in days.  The call
    returns a list whenever every birthday of the book has such an
    occurrence, and does not change the book. *)
Theorem upcoming_birthdays_membership (today : date) (book : AddressBook) :
  valid today ->
  NoDup (map name (dict_values book)) ->
  ((forall r b, In r (dict_values book) -> birthday r = Some b ->
                spec_next_occurrence today b <> None) ->
   exists entries, get_upcoming_birthdays today book = (Ok entries, book)) /\
  (forall entries,
     get_upcoming_birthdays today book = (Ok entries, book) ->
     forall r b, In r (dict_values book) -> birthday r = Some b ->
       ((exists x, In x entries /\ entry_name x = name r) <->
        spec_qualifies today b)).
Proof.
  intros Hv Hnd. unfold get_upcoming_birthdays. split.
  - intros Hdef.
    destruct (upcoming_loop_returns today (dict_values book) []) as [out ->].
    + intros r Hr. apply upcoming_entry_defined; [assumption|].
      intros b Hb. now apply (Hdef r).
    + now exists out.
  - intros entries [= Hloop] r b Hr Hb.
    pose proof (upcoming_loop_ok today _ _ _ Hloop) as Hout. split.
    + intros (x & Hx & Hname). apply Hout in Hx.
      destruct Hx as [[] | (r' & Hr' & Hx)].
      destruct (upcoming_entry_some _ _ _ Hv Hx) as (Hn' & b' & Hb' & Hq).
      assert (r' = r) as ->.
      { apply (NoDup_map_inj name (dict_values book)); congruence. }
      congruence.
    + intros Hq.
      destruct (upcoming_entry_qualifies today b r Hv Hb Hq) as (x & Hx & Hn).
      exists x. split; [|assumption]. apply Hout. right. now exists r.
Qed.

(** C2. For every qualifying occurrence [t] of a birthday, the congratulation
    date is [t] moved by exactly 2 days when [t] is a Saturday, by exactly
    1 day when it is a Sunday, and is [t] itself from Monday to Friday; it is
    always a weekday, it is the date of the emitted entry, and it can lie
    8 days after today. *)
Theorem congratulation_date_weekend_shift :
  (forall today b t : date,
     valid today ->
     spec_next_occurrence today b = Some t ->
     0 <= days_between t today <= 7 ->
     exists c,
       congratulation_date t = Ok c /\
       (forall r, birthday r = Some b ->
                  upcoming_entry today r = Ok (Some (make_entry r c))) /\
       (weekday t = 5 -> days_between c t = 2) /\
       (weekday t = 6 -> days_between c t = 1) /\
       (0 <= weekday t <= 4 -> c = t) /\
       0 <= weekday c <= 4) /\
  (exists today b t c : date,
     valid today /\ spec_next_occurrence today b = Some t /\
     days_between t today = 7 /\
     congratulation_date t = Ok c /\ days_between c today = 8).
Proof.
  split.
  - intros today b t Hv Ht H7.
    destruct (spec_next_occurrence_some _ _ _ Ht) as (Hvt & _).
    destruct (congratulation_date_spec t Hvt)
      as (c & Hc & Hvc & Hsat & Hsun & Hwk & Hday).
    exists c. unfold days_between in *. repeat split; try lia; try assumption.
    intros r Hb. unfold upcoming_entry. rewrite Hb.
    rewrite (this_year_birthday_spec today b Hv), Ht. simpl.
    rewrite (proj2 (in_next_7_days_iff today t) H7), Hc. reflexivity.
  - exists (mkdate 2024 6 9), (mkdate 1990 6 16), (mkdate 2024 6 16),
      (mkdate 2024 6 17).
    repeat split.
Qed.

(** C4. When the book holds a record whose birthday is February 29 and
    today lies in a year that is not a leap year, get_upcoming_birthdays
    raises the ValueError of the date construction and returns no list. *)
Theorem upcoming_birthdays_feb29_raises (today : date) (book : AddressBook)
    (r : ContactRecord) (b : date) :
  In r (dict_values book) -> birthday r = Some b ->
  month b = 2 -> day b = 29 -> is_leap (year today) = false ->
  get_upcoming_birthdays today book = (Raise ValueError, book).
Proof.
  intros Hr Hb Hm Hd Hleap. unfold get_upcoming_birthdays. f_equal.
  apply (upcoming_loop_raises today _ [] r ValueError Hr).
  unfold upcoming_entry, this_year_birthday, replace_year, date_new.
  rewrite Hb, Hm, Hd.
  assert (check_date_fields (year today) 2 29 = false) as ->; [|reflexivity].
  unfold check_date_fields, days_in_month. rewrite Hleap. simpl.
  now rewrite !andb_false_r.
Qed.

(** C5, as the code has it.  edit_phone never raises and replaces the value
    of every phone equal to [old_phone], later duplicates included; every
    other phone, the name and the birthday are unchanged, and when no phone
    equals [old_phone] the record is unchanged. *)
Theorem edit_phone_replaces_every_match (old_phone new_phone : string)
    (r : ContactRecord) :
  exists r',
    edit_phone old_phone new_phone r = (Ok tt, r') /\
    name r' = name r /\ birthday r' = birthday r /\
    List.length (phones r') = List.length (phones r) /\
    (forall i p, nth_error (phones r) i = Some p ->
       nth_error (phones r') i =
       Some (if String.eqb p old_phone then new_phone else p)) /\
    (~ In old_phone (phones r) -> r' = r).
Proof.
  eexists. split; [reflexivity|]. simpl. repeat split.
  - apply edit_phone_loop_length.
  - intros i p Hp. now rewrite edit_phone_loop_nth, Hp.
  - intros H. now rewrite (edit_phone_loop_absent _ _ _ H), set_phones_same.
Qed.

(** C7, as the code has it.  For a name that is not in the store and is
    valid, and a phone string that is not empty and not valid, add_contact
    raises the ValidationException of the phone and leaves the new record,
    without phones, in the store. *)
Theorem add_contact_invalid_phone_keeps_record (n p : string)
    (book : AddressBook) :
  dict_get n book = None -> isalpha n = true ->
  p <> "" -> ~ (isdigit p = true /\ String.length p = 10%nat) ->
  add_contact n (Some p) book =
    (Raise (ValidationException "Phone number must be 10 digits"),
     (book ++ [(n, mkRecord n [] None)])%list) /\
  dict_get n (snd (add_contact n (Some p) book)) = Some (mkRecord n [] None).
Proof.
  intros Eg Ha Hp Hbad.
  assert (add_contact n (Some p) book =
    (Raise (ValidationException "Phone number must be 10 digits"),
     dict_set n (mkRecord n [] None) book)) as E.
  { rewrite (add_contact_new _ _ _ Eg Ha).
    unfold bind, add_contact_phone, call.
    assert (truthy p = true) as ->.
    { destruct (truthy p) eqn:E; [reflexivity|].
      apply truthy_false_iff in E. contradiction. }
    rewrite (add_phone_invalid p _ Hbad).
    now rewrite (dict_set_same _ _ _ (dict_get_set book n _)). }
  rewrite E. simpl snd. rewrite dict_get_set.
  now rewrite (dict_set_new _ _ _ Eg).
Qed.

(** C8. change_contact raises KeyError exactly when the store has no record
    for the name; when it has one, the call returns the status string, and
    when moreover no phone of the record equals the old phone, the store
    and with it the phone list of the record are unchanged. *)
Theorem change_contact_not_found_iff (n old_phone new_phone : string)
    (book : AddressBook) :
  ((exists e, fst (change_contact n old_phone new_phone book) = Raise e) <->
   dict_get n book = None) /\
  (dict_get n book = None ->
   change_contact n old_phone new_phone book =
     (Raise (KeyError "Contact not found."), book)) /\
  (forall r, dict_get n book = Some r ->
     fst (change_contact n old_phone new_phone book)
       = Ok "Phone number updated.") /\
  (forall r, dict_get n book = Some r -> ~ In old_phone (phones r) ->
     change_contact n old_phone new_phone book
       = (Ok "Phone number updated.", book) /\
     dict_get n (snd (change_contact n old_phone new_phone book)) = Some r).
Proof.
  unfold change_contact, bind, find, gets.
  destruct (dict_get n book) as [record|] eqn:Eg.
  - assert (forall r, Some record = Some r -> ~ In old_phone (phones r) ->
              call n record (edit_phone old_phone new_phone) book = (Ok tt, book))
      as Hsame.
    { intros r [= <-] Habs. unfold call.
      now rewrite (edit_phone_absent _ _ _ Habs), (dict_set_same _ _ _ Eg). }
    split; [|split; [|split]].
    + split; [|discriminate]. intros [e He]. discriminate He.
    + discriminate.
    + reflexivity.
    + intros r Hr Habs. rewrite (Hsame r Hr Habs). simpl.
      split; [reflexivity | congruence].
  - split; [|split; [|split]]; try discriminate.
    + split; [reflexivity | intros _; now eexists].
    + reflexivity.
Qed.

(** C9. Every operation of the store (add_contact, add_record,
    change_contact, delete and the queries find, show_phone, show_all and
    get_upcoming_birthdays), whether it returns or raises, preserves the
    invariant that every key maps to a record whose name is that key, and
    that this name is a non-empty string of alphabetic characters. *)
Theorem exec_preserves_store_inv (o : op) (book : AddressBook) :
  op_ok o -> store_inv book -> store_inv (exec o book).
Proof.
  intros Hok Hinv. destruct o as [n p | r | n o' p | n | n | n | | t]; simpl.
  - now apply add_contact_preserves.
  - now apply store_inv_set.
  - now apply change_contact_preserves.
  - now apply delete_preserves.
  - exact Hinv.
  - unfold show_phone, bind, find, gets.
    now destruct (dict_get n book).
  - exact Hinv.
  - exact Hinv.
Qed.

(** C10. For a name that is not in the store and is invalid, that is, empty
    or with a character that is not alphabetic, add_contact raises the
    ValidationException of the name and leaves the store unchanged: no
    record is created. *)
Theorem add_contact_invalid_name_unchanged (n : string)
    (phone : option string) (book : AddressBook) :
  (n = "" \/
   exists c, In c (list_ascii_of_string n) /\ char_isalpha c = false) ->
  dict_get n book = None ->
  add_contact n phone book =
    (Raise (ValidationException "Name must contain only letters"), book) /\
  dict_get n (snd (add_contact n phone book)) = None.
Proof.
  intros Hbad Eg. apply isalpha_false_iff in Hbad.
  rewrite (add_contact_invalid_name _ _ _ Eg Hbad). now split.
Qed.

(** * Further properties *)

(** ** Record.add_phone, find_phone, remove_phone *)

Lemma add_phone_valid (p : string) (r : ContactRecord) :
  phone_ok p -> add_phone p r = (Ok tt, set_phones (phones r ++ [p]) r).
Proof.
  intros [Hd Hl]. unfold add_phone, bind, lift, modify, Phone, validate_phone.
  rewrite Hd, Hl. reflexivity.
Qed.

Lemma find_phone_loop_spec (phone : string) (ps : list string) :
  forall i0,
  match find_phone_loop phone ps i0 with
  | Some j =>
      exists i, j = (i0 + i)%nat /\ nth_error ps i = Some phone /\
                forall k, (k < i)%nat -> nth_error ps k <> Some phone
  | None => ~ In phone ps
  end.
Proof.
  induction ps as [|p ps IH]; intros i0; simpl; [tauto|].
  destruct (String.eqb_spec p phone) as [-> | Hne].
  - exists 0%nat. repeat split; [lia | intros k Hk; lia].
  - specialize (IH (S i0)).
    destruct (find_phone_loop phone ps (S i0)) as [j|].
    + destruct IH as (i & -> & Hi & Hfirst). exists (S i).
      repeat split; [lia | assumption |].
      intros [|k] Hk; simpl; [congruence | apply Hfirst; lia].
    + intros [H | H]; [congruence | tauto].
Qed.

Lemma find_phone_loop_None (phone : string) (ps : list string) (i0 : nat) :
  find_phone_loop phone ps i0 = None <-> ~ In phone ps.
Proof.
  pose proof (find_phone_loop_spec phone ps i0) as H.
  destruct (find_phone_loop phone ps i0) as [j|]; split; try tauto; try discriminate.
  intros Habs. exfalso. destruct H as (i & _ & Hi & _).
  apply Habs. eapply nth_error_In; eassumption.
Qed.

Lemma edit_phone_loop_In (old new p : string) (ps : list string) :
  In p (edit_phone_loop old new ps) ->
  (p = new /\ In old ps) \/ (p <> old /\ In p ps).
Proof.
  induction ps as [|q ps IH]; simpl; [tauto|].
  destruct (String.eqb_spec q old) as [-> | Hne].
  - intros [<- | H]; [left; split; [reflexivity | now left]|].
    destruct (IH H) as [[-> Hin] | [Hp Hin]]; [left | right]; split; auto.
  - intros [<- | H]; [right; split; [assumption | now left]|].
    destruct (IH H) as [[-> Hin] | [Hp Hin]]; [left | right]; split; auto.
Qed.

Lemma edit_phone_loop_new (old new : string) (ps : list string) :
  In old ps -> In new (edit_phone_loop old new ps).
Proof.
  induction ps as [|q ps IH]; simpl; [tauto|].
  destruct (String.eqb_spec q old) as [-> | Hne].
  - intros _. now left.
  - intros [H | H]; [congruence | right; now apply IH].
Qed.

Lemma remove_nth_app (pre suf : list string) (p : string) :
  remove_nth (List.length pre) (pre ++ p :: suf) = (pre ++ suf)%list.
Proof. induction pre as [|q pre IH]; simpl; congruence. Qed.

Lemma nth_error_app_here (pre suf : list string) :
  nth_error (pre ++ suf) (List.length pre) = nth_error suf 0.
Proof. induction pre as [|q pre IH]; simpl; auto. Qed.

Lemma app_cons_snoc (pre suf : list string) (p : string) :
  (pre ++ p :: suf = (pre ++ [p]) ++ suf)%list /\
  S (List.length pre) = List.length (pre ++ [p]).
Proof.
  split; [now rewrite <- app_assoc | rewrite length_app; simpl; lia].
Qed.

Lemma remove_phone_iter_done (phone : string) (fuel i : nat)
    (ps : list string) :
  (List.length ps <= i)%nat -> remove_phone_iter phone fuel i ps = ps.
Proof.
  intros H. apply nth_error_None in H.
  destruct fuel; [reflexivity|].
  change (remove_phone_iter phone (S fuel) i ps) with
    (match nth_error ps i with
     | None => ps
     | Some p =>
         if String.eqb p phone
         then remove_phone_iter phone fuel (S i) (remove_nth i ps)
         else remove_phone_iter phone fuel (S i) ps
     end).
  now rewrite H.
Qed.

(* With enough rounds the loop of remove_phone ends on the list that
   [remove_skip] describes. *)
Lemma remove_phone_iter_skip (phone : string) (fuel : nat) :
  forall pre suf,
  (List.length suf <= fuel)%nat ->
  remove_phone_iter phone fuel (List.length pre) (pre ++ suf)
    = (pre ++ remove_skip phone suf)%list.
Proof.
  induction fuel as [|fuel IH]; intros pre suf Hlen.
  - destruct suf; [reflexivity | simpl in Hlen; lia].
  - simpl remove_phone_iter. rewrite nth_error_app_here.
    destruct suf as [|p rest]; [reflexivity|]. simpl nth_error.
    simpl in Hlen. simpl remove_skip. cbv beta iota.
    destruct (String.eqb p phone).
    + rewrite remove_nth_app. destruct rest as [|q rest'].
      * apply remove_phone_iter_done. rewrite length_app. simpl. lia.
      * destruct (app_cons_snoc pre rest' q) as [-> ->].
        rewrite IH by (simpl in Hlen; lia).
        now rewrite <- app_assoc.
    + destruct (app_cons_snoc pre rest p) as [-> ->].
      rewrite IH by lia. now rewrite <- app_assoc.
Qed.

Lemma remove_phone_iter_result (phone : string) (ps : list string) (fuel : nat) :
  (List.length ps <= fuel)%nat ->
  remove_phone_iter phone fuel 0 ps = remove_skip phone ps.
Proof.
  intros H. exact (remove_phone_iter_skip phone fuel [] ps H).
Qed.

Lemma remove_skip_ind (phone : string) (P : list string -> Prop) :
  P [] ->
  (forall p, P [p]) ->
  (forall p q ps, P ps -> P (q :: ps) -> P (p :: q :: ps)) ->
  forall ps, P ps.
Proof.
  intros H0 H1 H2 ps.
  assert (P ps /\ forall p, P (p :: ps)) as [H _]; [|exact H].
  induction ps as [|q ps [IHa IHb]]; split; auto.
Qed.

Lemma remove_skip_filter_other (phone : string) (ps : list string) :
  filter (other_than phone) (remove_skip phone ps)
    = filter (other_than phone) ps.
Proof.
  assert (Hc : forall x l, filter (other_than phone) (x :: l) =
            if other_than phone x then x :: filter (other_than phone) l
            else filter (other_than phone) l) by reflexivity.
  assert (Ho : forall x, other_than phone x = negb (String.eqb x phone))
    by reflexivity.
  induction ps as [| p | p q ps IH1 IH2] using (remove_skip_ind phone).
  - reflexivity.
  - simpl remove_skip. rewrite (Hc p []), Ho.
    destruct (String.eqb p phone) eqn:E; [reflexivity|].
    now rewrite (Hc p []), Ho, E.
  - assert (remove_skip phone (p :: q :: ps) =
            if String.eqb p phone then q :: remove_skip phone ps
            else p :: remove_skip phone (q :: ps)) as -> by reflexivity.
    rewrite (Hc p (q :: ps)), Ho.
    destruct (String.eqb p phone) eqn:E; cbv [negb].
    + rewrite (Hc q (remove_skip phone ps)), (Hc q ps). now rewrite IH1.
    + rewrite (Hc p (remove_skip phone (q :: ps))), Ho, E. cbv [negb].
      now rewrite IH2.
Qed.

Lemma remove_skip_not_adjacent (phone : string) (ps : list string) :
  (forall i, nth_error ps i = Some phone -> nth_error ps (S i) <> Some phone) ->
  remove_skip phone ps = filter (other_than phone) ps.
Proof.
  assert (Hc : forall x l, filter (other_than phone) (x :: l) =
            if negb (String.eqb x phone) then x :: filter (other_than phone) l
            else filter (other_than phone) l) by reflexivity.
  induction ps as [| p | p q ps IH1 IH2] using (remove_skip_ind phone);
    intros Hadj.
  - reflexivity.
  - simpl remove_skip. rewrite Hc. now destruct (String.eqb p phone).
  - assert (remove_skip phone (p :: q :: ps) =
            if String.eqb p phone then q :: remove_skip phone ps
            else p :: remove_skip phone (q :: ps)) as -> by reflexivity.
    rewrite (Hc p).
    destruct (String.eqb_spec p phone) as [-> | Hne]; cbv [negb].
    + rewrite (Hc q).
      destruct (String.eqb_spec q phone) as [-> | Hq].
      * exfalso. now apply (Hadj 0%nat).
      * cbv [negb]. rewrite IH1; [reflexivity|].
        intros i Hi. apply (Hadj (S (S i))). exact Hi.
    + rewrite IH2; [reflexivity|].
      intros i Hi. apply (Hadj (S i)). exact Hi.
Qed.

Lemma remove_skip_repeat (phone : string) (n : nat) :
  remove_skip phone (repeat phone n) = repeat phone (Nat.div2 n).
Proof.
  assert (remove_skip phone (repeat phone n) = repeat phone (Nat.div2 n) /\
          remove_skip phone (repeat phone (S n)) = repeat phone (Nat.div2 (S n)))
    as [H _]; [|exact H].
  induction n as [|n [IHa IHb]].
  - simpl. now rewrite String.eqb_refl.
  - split; [exact IHb|].
    change (repeat phone (S (S n))) with (phone :: phone :: repeat phone n).
    change (Nat.div2 (S (S n))) with (S (Nat.div2 n)).
    simpl remove_skip. rewrite String.eqb_refl. simpl repeat.
    now rewrite IHa.
Qed.

Lemma filter_other_absent (phone : string) (ps : list string) :
  ~ In phone ps -> filter (other_than phone) ps = ps.
Proof.
  unfold other_than. induction ps as [|p ps IH]; simpl; [reflexivity|].
  intros H. destruct (String.eqb_spec p phone) as [-> | Hne]; [tauto|].
  simpl. rewrite IH; tauto.
Qed.

Lemma filter_other_not_In (phone : string) (ps : list string) :
  ~ In phone (filter (other_than phone) ps).
Proof.
  intros H. apply filter_In in H. destruct H as [_ H].
  unfold other_than in H. now rewrite String.eqb_refl in H.
Qed.

Lemma remove_skip_absent (phone : string) (ps : list string) :
  ~ In phone ps -> remove_skip phone ps = ps.
Proof.
  intros H. rewrite remove_skip_not_adjacent.
  - now apply filter_other_absent.
  - intros i Hi. exfalso. apply H. eapply nth_error_In; eassumption.
Qed.

Lemma remove_skip_length (phone : string) (ps : list string) :
  (List.length (remove_skip phone ps) <= List.length ps)%nat.
Proof.
  induction ps as [| p | p q ps IH1 IH2] using (remove_skip_ind phone).
  - simpl. lia.
  - simpl. destruct (String.eqb p phone); simpl; lia.
  - assert (remove_skip phone (p :: q :: ps) =
            if String.eqb p phone then q :: remove_skip phone ps
            else p :: remove_skip phone (q :: ps)) as -> by reflexivity.
    destruct (String.eqb p phone); simpl List.length in *; lia.
Qed.

(** X1. add_phone accepts exactly the phones that Phone accepts.  An
    accepted phone goes to the end of the list, next to any equal phone
    already there, and find_phone finds it afterwards; a rejected phone
    raises and leaves the record as it was. *)
Theorem add_phone_appends_or_rejects (p : string) (r : ContactRecord) :
  (phone_ok p ->
   add_phone p r = (Ok tt, mkRecord (name r) (phones r ++ [p]) (birthday r)) /\
   exists i, fst (find_phone p (snd (add_phone p r))) = Ok (Some i)) /\
  (~ phone_ok p ->
   add_phone p r =
     (Raise (ValidationException "Phone number must be 10 digits"), r)).
Proof.
  split.
  - intros Hok. rewrite (add_phone_valid p r Hok). split; [reflexivity|].
    unfold find_phone, gets. simpl.
    destruct (find_phone_loop p (phones r ++ [p]) 0) as [i|] eqn:E.
    + now exists i.
    + apply find_phone_loop_None in E. exfalso. apply E.
      apply in_or_app. right. now left.
  - intros Hbad. now apply add_phone_invalid.
Qed.

(** X2. find_phone returns the position of the first phone equal to the one
    asked for, returns None exactly when no phone equals it, and leaves the
    record as it was. *)
Theorem find_phone_first_match (phone : string) (r : ContactRecord) :
  (forall i,
     fst (find_phone phone r) = Ok (Some i) <->
     nth_error (phones r) i = Some phone /\
     forall k, (k < i)%nat -> nth_error (phones r) k <> Some phone) /\
  (fst (find_phone phone r) = Ok None <-> ~ In phone (phones r)) /\
  snd (find_phone phone r) = r.
Proof.
  unfold find_phone, gets. simpl.
  pose proof (find_phone_loop_spec phone (phones r) 0) as H.
  pose proof (find_phone_loop_None phone (phones r) 0) as HN.
  split; [|split; [|reflexivity]].
  - intros i. destruct (find_phone_loop phone (phones r) 0) as [j|].
    + destruct H as (i' & -> & Hi' & Hfirst). simpl. split.
      * intros [= <-]. now split.
      * intros [Hi Hf]. do 2 f_equal.
        destruct (Nat.lt_trichotomy i i') as [Hlt | [Heq | Hgt]].
        -- exfalso. now apply (Hfirst i).
        -- now symmetry.
        -- exfalso. now apply (Hf i').
    + split; [discriminate|]. intros [Hi _]. exfalso.
      apply (proj1 HN eq_refl). eapply nth_error_In; eassumption.
  - rewrite <- HN. split; [now intros [= ->] | now intros ->].
Qed.

(** X3. After edit_phone(old, new) with old different from new, find_phone
    no longer finds old; and if old was among the phones, find_phone finds
    new. *)
Theorem edit_phone_then_find (old_phone new_phone : string)
    (r : ContactRecord) :
  old_phone <> new_phone ->
  fst (find_phone old_phone (snd (edit_phone old_phone new_phone r)))
    = Ok None /\
  (In old_phone (phones r) ->
   exists i,
     fst (find_phone new_phone (snd (edit_phone old_phone new_phone r)))
       = Ok (Some i)).
Proof.
  intros Hne. unfold find_phone, gets, edit_phone, modify. simpl. split.
  - f_equal. apply find_phone_loop_None. intros H.
    apply edit_phone_loop_In in H. destruct H as [[H _] | [H _]]; congruence.
  - intros Hin.
    destruct (find_phone_loop new_phone
                (edit_phone_loop old_phone new_phone (phones r)) 0)
      as [i|] eqn:E; [now exists i|].
    apply find_phone_loop_None in E. exfalso. apply E.
    now apply edit_phone_loop_new.
Qed.

(** X4. remove_phone never raises and ends within as many rounds as there
    are phones.  It keeps the name, the birthday and, in their order, every
    phone different from the one asked for; it never makes the list longer,
    and when no phone equals the one asked for the record is unchanged. *)
Theorem remove_phone_keeps_other_phones (phone : string) (r : ContactRecord) :
  exists r',
    remove_phone phone r = (Ok tt, r') /\
    (forall fuel, (List.length (phones r) <= fuel)%nat ->
       remove_phone_iter phone fuel 0 (phones r) = phones r') /\
    name r' = name r /\ birthday r' = birthday r /\
    filter (other_than phone) (phones r')
      = filter (other_than phone) (phones r) /\
    (List.length (phones r') <= List.length (phones r))%nat /\
    (~ In phone (phones r) -> r' = r).
Proof.
  eexists. split; [reflexivity|]. simpl.
  rewrite (remove_phone_iter_result phone (phones r) _ (le_n _)).
  repeat split.
  - intros fuel Hf. now apply remove_phone_iter_result.
  - apply remove_skip_filter_other.
  - apply remove_skip_length.
  - intros H. now rewrite (remove_skip_absent _ _ H), set_phones_same.
Qed.

(** X5. When no two neighbouring phones both equal the one asked for (as
    when the phones are pairwise different), remove_phone removes every
    phone equal to it, and find_phone no longer finds it. *)
Theorem remove_phone_all_when_not_adjacent (phone : string)
    (r : ContactRecord) :
  (forall i, nth_error (phones r) i = Some phone ->
             nth_error (phones r) (S i) <> Some phone) ->
  phones (snd (remove_phone phone r)) = filter (other_than phone) (phones r) /\
  fst (find_phone phone (snd (remove_phone phone r))) = Ok None.
Proof.
  intros Hadj. unfold remove_phone, modify, find_phone, gets. simpl.
  rewrite (remove_phone_iter_result phone (phones r) _ (le_n _)).
  rewrite (remove_skip_not_adjacent phone (phones r) Hadj).
  split; [reflexivity|]. f_equal.
  apply find_phone_loop_None. apply filter_other_not_In.
Qed.

(** X6. Of [n] phones in a row that all equal the one asked for,
    remove_phone removes every second one only: the element that follows a
    removed one is passed over, and [n / 2] of them remain. *)
Theorem remove_phone_of_copies (phone : string) (n : nat) (r : ContactRecord) :
  phones r = repeat phone n ->
  phones (snd (remove_phone phone r)) = repeat phone (Nat.div2 n).
Proof.
  intros Hps. unfold remove_phone, modify. simpl.
  rewrite (remove_phone_iter_result phone (phones r) _ (le_n _)), Hps.
  apply remove_skip_repeat.
Qed.

(** ** The store *)

Lemma dict_set_length (book : AddressBook) (k : string) (r : ContactRecord) :
  List.length (dict_set k r book) =
  match dict_get k book with
  | Some _ => List.length book
  | None => S (List.length book)
  end.
Proof.
  induction book as [|[k' r'] book IH]; simpl; [reflexivity|].
  destruct (String.eqb k' k); simpl; [reflexivity|].
  rewrite IH. now destruct (dict_get k book).
Qed.

Lemma dict_del_get_other (book book' : AddressBook) (k k' : string) :
  dict_del k book = Some book' -> k' <> k ->
  dict_get k' book' = dict_get k' book.
Proof.
  revert book'. induction book as [|[k0 r0] book IH]; simpl; [discriminate|].
  intros book' Hdel Hne. destruct (String.eqb_spec k0 k) as [-> | H0].
  - injection Hdel as <-.
    destruct (String.eqb_spec k k'); [congruence | reflexivity].
  - destruct (dict_del k book) as [b|]; simpl in Hdel; [|discriminate].
    injection Hdel as <-. simpl. rewrite (IH b eq_refl Hne). reflexivity.
Qed.

Lemma dict_del_get_same (book book' : AddressBook) (k : string) :
  dict_del k book = Some book' -> NoDup (dict_keys book) ->
  dict_get k book' = None.
Proof.
  revert book'. induction book as [|[k0 r0] book IH]; simpl; [discriminate|].
  intros book' Hdel Hnd. inversion Hnd as [|? ? Hnot Hnd']; subst.
  destruct (String.eqb_spec k0 k) as [-> | H0].
  - injection Hdel as <-. now apply dict_get_None.
  - destruct (dict_del k book) as [b|]; simpl in Hdel; [|discriminate].
    injection Hdel as <-. simpl.
    destruct (String.eqb_spec k0 k); [congruence|]. now apply IH.
Qed.

Lemma dict_del_length (book book' : AddressBook) (k : string) :
  dict_del k book = Some book' -> List.length book = S (List.length book').
Proof.
  revert book'. induction book as [|[k0 r0] book IH]; simpl; [discriminate|].
  intros book' Hdel. destruct (String.eqb k0 k).
  - now injection Hdel as <-.
  - destruct (dict_del k book) as [b|]; simpl in Hdel; [|discriminate].
    injection Hdel as <-. simpl. now rewrite (IH b eq_refl).
Qed.

Lemma dict_del_Some (book : AddressBook) (k : string) (r : ContactRecord) :
  dict_get k book = Some r -> exists book', dict_del k book = Some book'.
Proof.
  intros Hg. destruct (dict_del k book) as [b|] eqn:E; [now exists b|].
  apply dict_del_None in E. congruence.
Qed.

Lemma dict_del_last (book : AddressBook) (k : string) (r : ContactRecord) :
  dict_get k book = None -> dict_del k (book ++ [(k, r)])%list = Some book.
Proof.
  induction book as [|[k0 r0] book IH]; simpl.
  - now rewrite String.eqb_refl.
  - destruct (String.eqb k0 k); [discriminate|].
    intros H. now rewrite (IH H).
Qed.

Lemma phone_ok_truthy (p : string) : phone_ok p -> truthy p = true.
Proof.
  intros [Hd _]. unfold isdigit in Hd. now apply andb_true_iff in Hd.
Qed.

Lemma add_contact_phone_valid (n p : string) (record : ContactRecord)
    (book : AddressBook) :
  phone_ok p ->
  add_contact_phone n record (Some p) book =
    (Ok tt, dict_set n (set_phones (phones record ++ [p]) record) book).
Proof.
  intros Hok. unfold add_contact_phone, call.
  now rewrite (phone_ok_truthy p Hok), (add_phone_valid p record Hok).
Qed.

(** X7. After add_record(record), find(record.name) returns that record and
    every other name finds what it found before; a record of a name already
    in the book takes the place of the old one, a record of a new name
    makes the book one longer. *)
Theorem add_record_then_find (record : ContactRecord) (book : AddressBook) :
  fst (find (name record) (snd (add_record record book))) = Ok (Some record) /\
  (forall k, k <> name record ->
     fst (find k (snd (add_record record book))) = fst (find k book)) /\
  List.length (snd (add_record record book)) =
    match dict_get (name record) book with
    | Some _ => List.length book
    | None => S (List.length book)
    end.
Proof.
  unfold find, gets, add_record, modify. simpl. repeat split.
  - now rewrite dict_get_set.
  - intros k Hk. now rewrite dict_get_set_other.
  - apply dict_set_length.
Qed.

(** X8. delete(name) raises KeyError(name) and changes nothing when the book
    has no such name.  Otherwise it returns, the book is one shorter, every
    other name finds what it found before, and in a book with distinct keys
    the name is no longer found. *)
Theorem delete_removes_or_raises (n : string) (book : AddressBook) :
  (dict_get n book = None -> delete n book = (Raise (KeyError n), book)) /\
  (forall r, dict_get n book = Some r ->
     exists book',
       delete n book = (Ok tt, book') /\
       List.length book = S (List.length book') /\
       (forall k, k <> n -> dict_get k book' = dict_get k book) /\
       (NoDup (dict_keys book) -> dict_get n book' = None)).
Proof.
  unfold delete. split.
  - intros Hg. now rewrite (proj2 (dict_del_None book n) Hg).
  - intros r Hg. destruct (dict_del_Some book n r Hg) as [book' Hd].
    exists book'. rewrite Hd. repeat split.
    + eapply dict_del_length; eassumption.
    + intros k Hk. eapply dict_del_get_other; eassumption.
    + intros Hnd. eapply dict_del_get_same; eassumption.
Qed.

(** X9. add_contact with a valid name that is not in the book and a phone
    that Phone accepts returns "Contact added.", puts the new record with
    that one phone last in the book, and show_phone then returns the
    phone. *)
Theorem add_contact_new_with_phone (n p : string) (book : AddressBook) :
  dict_get n book = None -> isalpha n = true -> phone_ok p ->
  add_contact n (Some p) book =
    (Ok "Contact added.", (book ++ [(n, mkRecord n [p] None)])%list) /\
  fst (show_phone n (snd (add_contact n (Some p) book))) = Ok p.
Proof.
  intros Eg Ha Hok.
  assert (add_contact n (Some p) book =
    (Ok "Contact added.", dict_set n (mkRecord n [p] None) book)) as E.
  { rewrite (add_contact_new _ _ _ Eg Ha). unfold bind.
    rewrite (add_contact_phone_valid _ _ _ _ Hok). unfold ret. f_equal.
    unfold set_phones. simpl.
    induction book as [|[k r] book IH]; simpl.
    - now rewrite String.eqb_refl.
    - simpl in Eg. destruct (String.eqb k n) eqn:Ek; [discriminate|].
      simpl. rewrite Ek. f_equal. now apply IH. }
  rewrite E. simpl snd. split.
  - now rewrite (dict_set_new _ _ _ Eg).
  - unfold show_phone, bind, find, gets. now rewrite dict_get_set.
Qed.

(** X10. add_contact for a name already in the book and a phone that Phone
    accepts returns "Contact updated." and appends the phone to that
    record, whether or not the record has it already; show_phone then
    returns the old phones and the new one, and every other name finds what
    it found before. *)
Theorem add_contact_existing_appends (n p : string) (r : ContactRecord)
    (book : AddressBook) :
  dict_get n book = Some r -> phone_ok p ->
  add_contact n (Some p) book =
    (Ok "Contact updated.",
     dict_set n (mkRecord (name r) (phones r ++ [p]) (birthday r)) book) /\
  fst (show_phone n (snd (add_contact n (Some p) book)))
    = Ok (String.concat "; " (phones r ++ [p])) /\
  (forall k, k <> n ->
     dict_get k (snd (add_contact n (Some p) book)) = dict_get k book).
Proof.
  intros Eg Hok.
  assert (add_contact n (Some p) book =
    (Ok "Contact updated.",
     dict_set n (mkRecord (name r) (phones r ++ [p]) (birthday r)) book)) as E.
  { rewrite (add_contact_found _ _ _ _ Eg). unfold bind.
    now rewrite (add_contact_phone_valid _ _ _ _ Hok). }
  rewrite E. simpl snd. repeat split.
  - unfold show_phone, bind, find, gets. now rewrite dict_get_set.
  - intros k Hk. now apply dict_get_set_other.
Qed.

(** X11. add_contact for a name already in the book, without a phone or
    with the empty string, returns "Contact updated." and changes nothing. *)
Theorem add_contact_without_phone (n : string) (phone : option string)
    (r : ContactRecord) (book : AddressBook) :
  dict_get n book = Some r -> phone = None \/ phone = Some "" ->
  add_contact n phone book = (Ok "Contact updated.", book).
Proof.
  intros Eg Hp. rewrite (add_contact_found _ _ _ _ Eg).
  destruct Hp as [-> | ->]; reflexivity.
Qed.

(** X12. For a valid name that is not in the book, delete(name) after
    add_contact(name, phone) returns and gives back the book as it was
    before, whatever the phone and whether or not add_contact raised on
    it. *)
Theorem add_contact_then_delete (n : string) (phone : option string)
    (book : AddressBook) :
  dict_get n book = None -> isalpha n = true ->
  delete n (snd (add_contact n phone book)) = (Ok tt, book).
Proof.
  intros Eg Ha.
  assert (exists r', snd (add_contact n phone book) = (book ++ [(n, r')])%list)
    as [r' ->].
  { rewrite (add_contact_new _ _ _ Eg Ha). unfold bind.
    pose proof (dict_get_set book n (mkRecord n [] None)) as Hset.
    assert (forall r', dict_set n r' (dict_set n (mkRecord n [] None) book)
                       = (book ++ [(n, r')])%list) as Hlast.
    { intros r'. rewrite (dict_set_new _ _ _ Eg).
      clear Hset. induction book as [|[k r] book IH]; simpl.
      - now rewrite String.eqb_refl.
      - simpl in Eg. destruct (String.eqb k n) eqn:Ek; [discriminate|].
        now rewrite (IH Eg). }
    unfold add_contact_phone.
    destruct phone as [p|]; [destruct (truthy p)|].
    - unfold call. destruct (add_phone p _) as [[[]|e] r'];
        exists r'; simpl; apply Hlast.
    - exists (mkRecord n [] None). simpl. now rewrite (dict_set_new _ _ _ Eg).
    - exists (mkRecord n [] None). simpl. now rewrite (dict_set_new _ _ _ Eg). }
  unfold delete. now rewrite (dict_del_last _ _ _ Eg).
Qed.

(** X13. change_contact for a name in the book returns "Phone number
    updated." and stores the record with every phone equal to the old one
    replaced: the number of phones is the same, no phone equals the old one
    afterwards when the new one differs from it, and every other name finds
    what it found before. *)
Theorem change_contact_replaces (n old_phone new_phone : string)
    (r : ContactRecord) (book : AddressBook) :
  dict_get n book = Some r ->
  exists r',
    change_contact n old_phone new_phone book
      = (Ok "Phone number updated.", dict_set n r' book) /\
    dict_get n (dict_set n r' book) = Some r' /\
    name r' = name r /\ birthday r' = birthday r /\
    List.length (phones r') = List.length (phones r) /\
    (old_phone <> new_phone -> ~ In old_phone (phones r')) /\
    (forall k, k <> n -> dict_get k (dict_set n r' book) = dict_get k book).
Proof.
  intros Eg.
  exists (set_phones (edit_phone_loop old_phone new_phone (phones r)) r).
  unfold change_contact, bind, find, gets. rewrite Eg.
  repeat split.
  - apply dict_get_set.
  - apply edit_phone_loop_length.
  - intros Hne H. simpl in H. apply edit_phone_loop_In in H.
    destruct H as [[H _] | [H _]]; congruence.
  - intros k Hk. now apply dict_get_set_other.
Qed.

Lemma phones_valid_set (book : AddressBook) (k : string) (r : ContactRecord) :
  phones_valid book -> (forall p, In p (phones r) -> phone_ok p) ->
  phones_valid (dict_set k r book).
Proof.
  intros Hb Hr k' r' Hin p Hp.
  destruct (dict_set_In _ _ _ _ _ Hin) as [[_ ->] | Hin'].
  - now apply Hr.
  - eapply Hb; eassumption.
Qed.

Lemma add_contact_phone_phones_valid (n : string) (record : ContactRecord)
    (phone : option string) (book : AddressBook) :
  phones_valid book -> (forall p, In p (phones record) -> phone_ok p) ->
  phones_valid (snd (add_contact_phone n record phone book)).
Proof.
  intros Hb Hr. unfold add_contact_phone.
  destruct phone as [p|]; [destruct (truthy p)|]; try exact Hb.
  unfold call, add_phone, bind, lift, modify, Phone, validate_phone.
  destruct (isdigit p) eqn:Ed; simpl.
  - destruct (Z.of_nat (String.length p) =? 10) eqn:El; simpl.
    + apply phones_valid_set; [assumption|].
      intros q Hq. simpl in Hq. apply in_app_or in Hq.
      destruct Hq as [Hq | [<- | []]]; [now apply Hr|].
      split; [assumption|]. boolprop. lia.
    + now apply phones_valid_set.
  - now apply phones_valid_set.
Qed.

(** X14. As long as add_record is given records whose phones Phone accepts
    and change_contact is given a new phone that Phone accepts, every
    operation of the store, whether it returns or raises, keeps every
    stored phone one that Phone accepts. *)
Theorem exec_preserves_phones_valid (o : op) (book : AddressBook) :
  op_phones_ok o -> phones_valid book -> phones_valid (exec o book).
Proof.
  intros Hok Hb. destruct o as [n p | r | n o' p | n | n | n | | t]; simpl.
  - destruct (dict_get n book) as [record|] eqn:Eg.
    + rewrite (add_contact_found _ _ _ _ Eg).
      apply bind_snd; [|intros _; simpl];
        (apply add_contact_phone_phones_valid; [assumption|]);
        intros q Hq; eapply Hb; eauto using dict_get_In.
    + destruct (isalpha n) eqn:Ea.
      * rewrite (add_contact_new _ _ _ Eg Ea).
        assert (phones_valid (dict_set n (mkRecord n [] None) book)) as Hb'
          by (apply phones_valid_set; [assumption | intros q []]).
        apply bind_snd; [|intros _; simpl];
          (apply add_contact_phone_phones_valid; [assumption | intros q []]).
      * now rewrite (add_contact_invalid_name _ _ _ Eg Ea).
  - now apply phones_valid_set.
  - unfold change_contact, bind, find, gets.
    destruct (dict_get n book) as [record|] eqn:Eg; [|exact Hb].
    unfold call, edit_phone, modify, ret. simpl.
    apply phones_valid_set; [assumption|].
    intros q Hq. simpl in Hq. apply edit_phone_loop_In in Hq.
    destruct Hq as [[-> _] | [_ Hq]]; [exact Hok|].
    eapply Hb; eauto using dict_get_In.
  - unfold delete. destruct (dict_del n book) as [book'|] eqn:E; [|exact Hb].
    intros k r Hin. apply (Hb k r). eapply dict_del_In; eassumption.
  - exact Hb.
  - unfold show_phone, bind, find, gets. now destruct (dict_get n book).
  - exact Hb.
  - exact Hb.
Qed.

Lemma Record_str_first (r : ContactRecord) :
  exists s, Record_str r = String "C"%char s.
Proof. unfold Record_str. simpl. now eexists. Qed.

Lemma concat_first (sep : string) (c : ascii) (s : string) (xs : list string) :
  exists s', String.concat sep (String c s :: xs) = String c s'.
Proof. destruct xs; simpl; now eexists. Qed.

(** X15. show_all returns "No contacts available." exactly when the book is
    empty, and never changes the book. *)
Theorem show_all_sentinel_iff_empty (book : AddressBook) :
  (fst (show_all book) = Ok "No contacts available." <-> book = []) /\
  snd (show_all book) = book.
Proof.
  split; [|reflexivity]. unfold show_all, gets. split.
  - destruct book as [|[k r] rest]; [reflexivity|].
    cbv beta iota. change (dict_values ((k, r) :: rest))
      with (r :: dict_values rest). rewrite map_cons.
    destruct (Record_str_first r) as [s0 ->].
    destruct (concat_first newline "C"%char s0 (map Record_str (dict_values rest)))
      as [s1 ->].
    simpl. discriminate.
  - now intros ->.
Qed.

(** ** The birthday query *)

Lemma day_of_year_next_year (y m d : Z) :
  days_before_month (y + 1) m + d <= days_before_month y m + d + 1.
Proof.
  unfold days_before_month.
  destruct ((2 <? m) && is_leap (y + 1)), ((2 <? m) && is_leap y); lia.
Qed.

(** X16. The next occurrence that lines 98-102 compute is never before
    today and at most 366 days after it, so the lower bound of the test at
    line 105 always holds. *)
Theorem this_year_birthday_not_past (today b t : date) :
  valid today -> this_year_birthday today b = Ok t ->
  0 <= days_between t today <= 366 /\
  in_next_7_days today t = (days_between t today <=? 7).
Proof.
  intros Hv Ht.
  assert (0 <= days_between t today <= 366) as Hrange.
  { unfold this_year_birthday in Ht.
    destruct (replace_year b (year today)) as [t0|] eqn:E0; simpl in Ht;
      [|discriminate].
    apply date_new_ok in E0. destruct E0 as [-> Hv0].
    pose proof (day_of_year_bounds _ Hv0) as B0.
    pose proof (day_of_year_bounds _ Hv) as Bt.
    rewrite (date_lt_iff _ _ Hv0 Hv) in Ht.
    unfold days_between. unfold toordinal in *. simpl in *.
    destruct (_ <? _) eqn:El in Ht; boolprop.
    - apply date_new_ok in Ht. destruct Ht as [-> Hv1]. simpl in *.
      pose proof (day_of_year_bounds _ Hv1) as B1. simpl in B1.
      pose proof (day_of_year_next_year (year today) (month b) (day b)).
      rewrite days_before_year_succ. unfold year_length in *.
      destruct (is_leap (year today)); lia.
    - injection Ht as <-. simpl. unfold year_length in *.
      destruct (is_leap (year today)); lia. }
  split; [exact Hrange|].
  unfold in_next_7_days. destruct Hrange as [H0 _].
  apply Z.leb_le in H0. now rewrite H0.
Qed.

Lemma upcoming_entry_describe (today : date) (r : ContactRecord) (x : entry) :
  upcoming_entry today r = Ok (Some x) ->
  exists b t c,
    birthday r = Some b /\ this_year_birthday today b = Ok t /\
    in_next_7_days today t = true /\
    congratulation_date t = Ok c /\ x = make_entry r c.
Proof.
  unfold upcoming_entry. destruct (birthday r) as [b|]; [|discriminate].
  destruct (this_year_birthday today b) as [t|] eqn:Et; simpl; [|discriminate].
  destruct (in_next_7_days today t) eqn:E7; [|discriminate].
  destruct (congratulation_date t) as [c|] eqn:Ec; simpl; [|discriminate].
  intros [= <-]. now exists b, t, c.
Qed.

(** X17. Every entry that get_upcoming_birthdays returns belongs to a record
    of the book with a birthday whose next occurrence [t] is 0 to 7 days
    after today.  Both date fields of the entry print one and the same date
    [c]: a weekday, 0 to 2 days after [t] and at most 9 days after today. *)
Theorem upcoming_entries_describe (today : date) (book : AddressBook)
    (entries : list entry) :
  get_upcoming_birthdays today book = (Ok entries, book) ->
  forall x, In x entries ->
  exists r b t c,
    In r (dict_values book) /\ birthday r = Some b /\
    this_year_birthday today b = Ok t /\ congratulation_date t = Ok c /\
    entry_name x = name r /\
    entry_birthday x = strftime_dmY c /\
    entry_congratulation_date x = strftime_Ymd c /\
    0 <= weekday c <= 4 /\
    0 <= days_between t today <= 7 /\
    0 <= days_between c t <= 2 /\
    days_between c today <= 9.
Proof.
  unfold get_upcoming_birthdays. intros [= Hloop] x Hx.
  apply (upcoming_loop_ok today _ _ _ Hloop) in Hx.
  destruct Hx as [[] | (r & Hr & Hx)].
  destruct (upcoming_entry_describe _ _ _ Hx) as (b & t & c & Hb & Ht & H7 & Hc & ->).
  exists r, b, t, c.
  pose proof (this_year_birthday_valid _ _ _ Ht) as Hvt.
  destruct (congratulation_date_spec t Hvt)
    as (c' & Hc' & _ & Hsat & Hsun & Hwk & Hday).
  rewrite Hc in Hc'. injection Hc' as <-.
  apply in_next_7_days_iff in H7.
  pose proof (weekday_range t) as Hw.
  assert (0 <= toordinal c - toordinal t <= 2) as Hshift.
  { destruct (Z.eq_dec (weekday t) 5) as [E5 | N5]; [specialize (Hsat E5); lia|].
    destruct (Z.eq_dec (weekday t) 6) as [E6 | N6]; [specialize (Hsun E6); lia|].
    rewrite (Hwk ltac:(lia)). lia. }
  unfold days_between. repeat split; try assumption; try lia.
Qed.

(** X18. A record whose birthday has the month and day of today is in the
    result of get_upcoming_birthdays whenever the call returns: today
    counts. *)
Theorem birthday_today_is_upcoming (today b : date) (r : ContactRecord)
    (book : AddressBook) (entries : list entry) :
  valid today -> In r (dict_values book) -> birthday r = Some b ->
  month b = month today -> day b = day today ->
  get_upcoming_birthdays today book = (Ok entries, book) ->
  exists x, In x entries /\ entry_name x = name r.
Proof.
  intros Hv Hr Hb Hm Hd. unfold get_upcoming_birthdays. intros [= Hloop].
  assert (spec_qualifies today b) as Hq.
  { exists today. unfold spec_next_occurrence, spec_occurrence.
    rewrite Hm, Hd. unfold valid in Hv. rewrite Hv.
    replace (mkdate (year today) (month today) (day today)) with today
      by now destruct today.
    rewrite Z.ltb_irrefl. split; [reflexivity | lia]. }
  destruct (upcoming_entry_qualifies today b r Hv Hb Hq) as (x & Hx & Hn).
  exists x. split; [|assumption].
  apply (upcoming_loop_ok today _ _ _ Hloop). right. now exists r.
Qed.

Lemma check_feb29 (y : Z) :
  check_date_fields y 2 29 = (1 <=? y) && (y <=? 9999) && is_leap y.
Proof.
  unfold check_date_fields, days_in_month, MINYEAR, MAXYEAR. simpl.
  destruct (is_leap y); simpl; now rewrite ?andb_true_r, ?andb_false_r.
Qed.

Lemma is_leap_succ (y : Z) : is_leap y = true -> is_leap (y + 1) = false.
Proof.
  unfold is_leap. intros H. boolprop.
  - assert (((y + 1) mod 4 =? 0) = false) as ->; [|reflexivity].
    apply Z.eqb_neq. Z.div_mod_to_equations. lia.
  - assert (((y + 1) mod 4 =? 0) = false) as ->; [|reflexivity].
    apply Z.eqb_neq. Z.div_mod_to_equations. lia.
Qed.

(** X19. For a birthday on 29 February the next occurrence exists only when
    the year of today is a leap year and today is not after its
    29 February; then it is that day.  In every other case, also in a leap
    year once 29 February has passed, lines 98-102 raise ValueError. *)
Theorem feb29_birthday_occurrence (today b : date) :
  valid today -> month b = 2 -> day b = 29 ->
  this_year_birthday today b =
    if is_leap (year today) && negb (date_lt (mkdate (year today) 2 29) today)
    then Ok (mkdate (year today) 2 29)
    else Raise ValueError.
Proof.
  intros Hv Hm Hd. pose proof (proj1 (valid_fields today) Hv) as (Hy & _ & _).
  unfold this_year_birthday, replace_year, date_new. rewrite Hm, Hd.
  rewrite check_feb29.
  assert ((1 <=? year today) && (year today <=? 9999) = true) as ->
    by (apply andb_true_iff; split; apply Z.leb_le; lia).
  destruct (is_leap (year today)) eqn:El; simpl; [|reflexivity].
  destruct (date_lt (mkdate (year today) 2 29) today); simpl; [|reflexivity].
  now rewrite check_feb29, (is_leap_succ _ El), andb_false_r.
Qed.

Lemma upcoming_entry_raise_inv (today : date) (r : ContactRecord) (e : exn) :
  upcoming_entry today r = Raise e ->
  exists b, birthday r = Some b /\ this_year_birthday today b = Raise ValueError.
Proof.
  unfold upcoming_entry. destruct (birthday r) as [b|]; [|discriminate].
  destruct (this_year_birthday today b) as [t|e'] eqn:Et; simpl.
  - destruct (in_next_7_days today t); [|discriminate].
    destruct (congratulation_date_spec t (this_year_birthday_valid _ _ _ Et))
      as (c & -> & _).
    discriminate.
  - intros _. exists b. split; [reflexivity|].
    now rewrite (this_year_birthday_raise _ _ _ Et) in Et.
Qed.

Lemma upcoming_loop_raise_inv (today : date) (records : list ContactRecord) :
  forall acc e,
  upcoming_loop today records acc = Raise e ->
  exists r e', In r records /\ upcoming_entry today r = Raise e'.
Proof.
  induction records as [|r rest IH]; intros acc e; simpl; [discriminate|].
  destruct (upcoming_entry today r) as [oe|e'] eqn:E; simpl.
  - intros H. destruct (IH _ _ H) as (r' & e'' & Hin & Hr').
    exists r', e''. split; [now right | assumption].
  - intros _. exists r, e'. split; [now left | assumption].
Qed.

(** X20. get_upcoming_birthdays raises exactly when some record of the book
    has a birthday for which lines 98-102 cannot build the occurrence; what
    it raises is always the ValueError of the date construction, never an
    OverflowError of the weekend shift, and the book is left as it was. *)
Theorem upcoming_birthdays_raises_iff (today : date) (book : AddressBook) :
  (fst (get_upcoming_birthdays today book) = Raise ValueError <->
   exists r b, In r (dict_values book) /\ birthday r = Some b /\
               this_year_birthday today b = Raise ValueError) /\
  (forall e, fst (get_upcoming_birthdays today book) = Raise e ->
             e = ValueError) /\
  snd (get_upcoming_birthdays today book) = book.
Proof.
  unfold get_upcoming_birthdays. simpl.
  assert (Hinv : forall e, upcoming_loop today (dict_values book) [] = Raise e ->
            exists r b, In r (dict_values book) /\ birthday r = Some b /\
                        this_year_birthday today b = Raise ValueError).
  { intros e H. destruct (upcoming_loop_raise_inv _ _ _ _ H) as (r & e' & Hr & He).
    destruct (upcoming_entry_raise_inv _ _ _ He) as (b & Hb & Ht).
    now exists r, b. }
  assert (Hraise : (exists r b, In r (dict_values book) /\ birthday r = Some b /\
                      this_year_birthday today b = Raise ValueError) ->
            upcoming_loop today (dict_values book) [] = Raise ValueError).
  { intros (r & b & Hr & Hb & Ht).
    apply (upcoming_loop_raises today _ [] r ValueError Hr).
    unfold upcoming_entry. now rewrite Hb, Ht. }
  split; [|split; [|reflexivity]].
  - split; [apply Hinv | apply Hraise].
  - intros e He. pose proof (Hraise (Hinv e He)) as H. congruence.
Qed.

(** X21. In the year 9999 a birthday whose month and day lie before today
    has no next occurrence, the year 10000 being out of range: lines 98-102
    raise ValueError. *)
Theorem this_year_birthday_last_year (today b : date) :
  year today = 9999 ->
  date_lt (mkdate 9999 (month b) (day b)) today = true ->
  this_year_birthday today b = Raise ValueError.
Proof.
  intros Hy Hlt. unfold this_year_birthday, replace_year, date_new.
  rewrite Hy. destruct (check_date_fields 9999 (month b) (day b)); simpl;
    [|reflexivity].
  rewrite Hlt. reflexivity.
Qed.

(** ** parse_input *)

Lemma truthy_cons (c : ascii) (s : string) : truthy (String c s) = true.
Proof. reflexivity. Qed.

Lemma truthy_true_iff (s : string) : truthy s = true <-> s <> "".
Proof.
  destruct s; simpl; split; try congruence; try discriminate.
  reflexivity.
Qed.

Lemma no_space_app (s : string) (c : ascii) :
  no_space s -> char_isspace c = false ->
  no_space (s ++ String c EmptyString).
Proof.
  unfold no_space. intros Hs Hc. induction s as [|c' s IH]; simpl in *.
  - now rewrite Hc.
  - apply andb_true_iff in Hs. destruct Hs as [H1 H2].
    rewrite H1. simpl. now apply IH.
Qed.

Lemma append_truthy (s : string) (c : ascii) :
  truthy (s ++ String c EmptyString) = true.
Proof. now destruct s. Qed.

Lemma lstrip_blank (s : string) : lstrip s = "" <-> blank s.
Proof.
  unfold blank. induction s as [|c s IH]; simpl; [tauto|].
  destruct (char_isspace c); simpl; [exact IH|].
  split; discriminate.
Qed.

Lemma lstrip_head (s : string) :
  lstrip s = "" \/
  exists c s', lstrip s = String c s' /\ char_isspace c = false.
Proof.
  induction s as [|c s IH]; simpl; [now left|].
  destruct (char_isspace c) eqn:E; [exact IH|].
  right. now exists c, s.
Qed.

Lemma rstrip_blank (s : string) : rstrip s = "" <-> blank s.
Proof.
  unfold blank. induction s as [|c s IH]; simpl; [tauto|].
  destruct (rstrip s) as [|c' r] eqn:Er.
  - destruct (char_isspace c); simpl.
    + split; [intros _; now apply IH | reflexivity].
    + split; discriminate.
  - split; [discriminate|]. intros H. apply andb_true_iff in H.
    destruct H as [_ H]. apply IH in H. discriminate.
Qed.

Lemma strip_blank (s : string) : strip s = "" <-> blank s.
Proof.
  unfold strip. rewrite rstrip_blank.
  destruct (lstrip_head s) as [H | (c & s' & H & Hc)].
  - rewrite H. split; [intros _; now apply lstrip_blank | reflexivity].
  - rewrite H. unfold blank. simpl. rewrite Hc. simpl.
    split; [discriminate|]. intros Hb.
    apply lstrip_blank in Hb. congruence.
Qed.

Lemma rstrip_no_space (s : string) : no_space s -> rstrip s = s.
Proof.
  unfold no_space. induction s as [|c s IH]; simpl; [reflexivity|].
  intros H. apply andb_true_iff in H. destruct H as [Hc Hs].
  rewrite (IH Hs). destruct s; [|reflexivity].
  apply negb_true_iff in Hc. now rewrite Hc.
Qed.

(* strip does nothing to a string without white space. *)
Lemma strip_no_space (s : string) : no_space s -> strip s = s.
Proof.
  intros H. unfold strip.
  assert (lstrip s = s) as ->; [|now apply rstrip_no_space].
  destruct s as [|c s]; [reflexivity|]. unfold no_space in H. simpl in *.
  apply andb_true_iff in H. destruct H as [Hc _].
  apply negb_true_iff in Hc. now rewrite Hc.
Qed.

Lemma split_ws_tokens (s : string) :
  forall tok, no_space tok ->
  Forall (fun t => t <> "" /\ no_space t) (split_ws tok s).
Proof.
  induction s as [|c s IH]; intros tok Htok; simpl.
  - destruct (truthy tok) eqn:Et; [|constructor].
    constructor; [|constructor]. split; [now apply truthy_true_iff | assumption].
  - destruct (char_isspace c) eqn:Ec.
    + destruct (truthy tok) eqn:Et.
      * constructor; [split; [now apply truthy_true_iff | assumption]|].
        now apply IH.
      * now apply IH.
    + apply IH. now apply no_space_app.
Qed.

Lemma split_ws_nil (s : string) :
  forall tok, split_ws tok s = [] <-> tok = "" /\ blank s.
Proof.
  unfold blank. induction s as [|c s IH]; intros tok; simpl.
  - destruct tok; simpl; split.
    + intros _. now split.
    + reflexivity.
    + discriminate.
    + intros [H _]. discriminate H.
  - destruct (char_isspace c) eqn:Ec; simpl.
    + destruct tok as [|c' tok']; simpl.
      * exact (IH "").
      * split; [discriminate | intros [H _]; discriminate H].
    + split.
      * intros H. apply IH in H. destruct H as [H _]. now destruct tok.
      * intros [_ H]. discriminate H.
Qed.

Lemma lower_nonempty (s : string) : s <> "" -> lower s <> "".
Proof. destruct s; simpl; [tauto | discriminate]. Qed.

(** X22. parse_input never raises: unpacking always finds a command.  For
    an input of white space only, and for no other input, it returns the
    empty command with no arguments. *)
Theorem parse_input_blank_iff (user_input : string) :
  (exists cmd args, parse_input user_input = Ok (cmd, args)) /\
  (parse_input user_input = Ok ("", []) <-> blank user_input).
Proof.
  unfold parse_input.
  destruct (truthy (strip user_input)) eqn:Et; simpl.
  - assert (~ blank user_input) as Hnb.
    { intros Hb. apply strip_blank in Hb. rewrite Hb in Et. discriminate. }
    destruct (split user_input) as [|cmd args] eqn:Es.
    + exfalso. apply Hnb. now apply (split_ws_nil user_input "").
    + split; [now eexists; eexists|].
      split; [|tauto]. intros [= Hcmd _]. exfalso.
      pose proof (split_ws_tokens user_input "" eq_refl) as Htok.
      fold (split user_input) in Htok. rewrite Es in Htok.
      inversion Htok as [|? ? [Hne Hns] _]; subst.
      rewrite (strip_no_space cmd Hns) in Hcmd.
      now apply (lower_nonempty cmd Hne).
  - split; [now eexists; eexists|].
    split; [intros _|reflexivity].
    apply strip_blank. now apply truthy_false_iff.
Qed.

(** X23. For an input that is not white space only, parse_input returns the
    first word of the input in lower case as the command and the other
    words unchanged as the arguments; no word is empty or contains white
    space, so the strip of each word changes nothing. *)
Theorem parse_input_words (user_input : string) :
  ~ blank user_input ->
  exists first args,
    split user_input = first :: args /\
    parse_input user_input = Ok (lower first, args) /\
    Forall (fun w => w <> "" /\ no_space w) (first :: args).
Proof.
  intros Hnb.
  pose proof (split_ws_tokens user_input "" eq_refl) as Htok.
  fold (split user_input) in Htok.
  destruct (split user_input) as [|first args] eqn:Es.
  - exfalso. apply Hnb. now apply (split_ws_nil user_input "").
  - exists first, args. split; [reflexivity|]. split; [|assumption].
    unfold parse_input. rewrite Es.
    assert (truthy (strip user_input) = true) as ->.
    { apply truthy_true_iff. intros H. apply Hnb. now apply strip_blank. }
    simpl. inversion Htok as [|? ? [_ Hns] Hargs]; subst.
    rewrite (strip_no_space first Hns). do 2 f_equal.
    clear Es Htok. induction Hargs as [|a args [_ Ha] _ IH]; simpl;
      [reflexivity|].
    now rewrite (strip_no_space a Ha), IH.
Qed.

End Book.

(** * The claims on sample data *)

Lemma sample_book_inv : store_inv ascii_isalpha sample_book.
Proof.
  split.
  - repeat constructor; simpl; intuition discriminate.
  - intros k r [[= <- <-] | [[= <- <-] | [[= <- <-] | []]]]; now split.
Qed.

Lemma upcoming_birthdays_membership_witness :
  valid monday_10_june /\
  NoDup (map name (dict_values sample_book)) /\
  (exists entries,
     get_upcoming_birthdays monday_10_june sample_book
       = (Ok entries, sample_book)) /\
  ((exists x,
      In x [mkEntry "Anna" "17.06.2024" "2024.06.17";
            mkEntry "Bob" "12.06.2024" "2024.06.12"] /\
      entry_name x = name bob) <->
   spec_qualifies monday_10_june (mkdate 1990 6 12)).
Proof.
  assert (Hv : valid monday_10_june) by reflexivity.
  pose proof (store_inv_names ascii_isalpha _ sample_book_inv) as Hnd.
  split; [exact Hv|]. split; [exact Hnd|].
  destruct (upcoming_birthdays_membership monday_10_june sample_book Hv Hnd)
    as [Hret Hmem].
  split.
  - apply Hret. intros r b [<- | [<- | [<- | []]]] [= <-]; discriminate.
  - apply (Hmem _ eq_refl bob); [right; left|]; reflexivity.
Defined.

(** C1 as stated fails: on 10.06.2023 Bob's birthday 12.06 qualifies, but
    the book also holds a birthday on 29 February, the call raises at
    line 98 and returns no list, so Bob is in no result. *)
Lemma upcoming_birthdays_qualifying_not_returned :
  In bob (dict_values [("Bob", bob); ("Leap", leap)]) /\
  birthday bob = Some (mkdate 1990 6 12) /\
  spec_qualifies (mkdate 2023 6 10) (mkdate 1990 6 12) /\
  get_upcoming_birthdays (mkdate 2023 6 10) [("Bob", bob); ("Leap", leap)]
    = (Raise ValueError, [("Bob", bob); ("Leap", leap)]) /\
  (forall entries,
     fst (get_upcoming_birthdays (mkdate 2023 6 10)
            [("Bob", bob); ("Leap", leap)]) <> Ok entries).
Proof.
  split; [left; reflexivity|]. split; [reflexivity|]. split.
  - exists (mkdate 2023 6 12). split; [reflexivity|].
    vm_compute. split; discriminate.
  - split; [reflexivity | discriminate].
Qed.

Lemma congratulation_date_weekend_shift_witness :
  exists c,
    congratulation_date (mkdate 2024 6 15) = Ok c /\
    (forall r, birthday r = Some (mkdate 1990 6 15) ->
       upcoming_entry monday_10_june r = Ok (Some (make_entry r c))) /\
    (weekday (mkdate 2024 6 15) = 5 -> days_between c (mkdate 2024 6 15) = 2) /\
    (weekday (mkdate 2024 6 15) = 6 -> days_between c (mkdate 2024 6 15) = 1) /\
    (0 <= weekday (mkdate 2024 6 15) <= 4 -> c = mkdate 2024 6 15) /\
    0 <= weekday c <= 4.
Proof.
  apply (proj1 congratulation_date_weekend_shift
           monday_10_june (mkdate 1990 6 15) (mkdate 2024 6 15)).
  - reflexivity.
  - reflexivity.
  - vm_compute. split; discriminate.
Defined.

(** C3 on the code.  Today is Monday 10.06.2024 and Anna's birthday is
    15.06.1990: this year's birthday is Saturday 15.06.2024 and the
    congratulation date is Monday 17.06.2024.  The entry of the code prints
    the congratulation date in both fields, where the specification asks
    for 15.06.2024 as the birthday. *)
Theorem upcoming_entry_birthday_field_is_shifted :
  this_year_birthday monday_10_june (mkdate 1990 6 15) = Ok (mkdate 2024 6 15) /\
  weekday (mkdate 2024 6 15) = 5 /\
  congratulation_date (mkdate 2024 6 15) = Ok (mkdate 2024 6 17) /\
  get_upcoming_birthdays monday_10_june [("Anna", anna)]
    = (Ok [mkEntry "Anna" "17.06.2024" "2024.06.17"], [("Anna", anna)]) /\
  spec_entry anna (mkdate 2024 6 15) (mkdate 2024 6 17)
    = mkEntry "Anna" "15.06.2024" "2024.06.17" /\
  make_entry anna (mkdate 2024 6 17)
    <> spec_entry anna (mkdate 2024 6 15) (mkdate 2024 6 17).
Proof. repeat split. discriminate. Qed.

Lemma upcoming_birthdays_feb29_raises_witness :
  get_upcoming_birthdays (mkdate 2023 3 1) [("Anna", anna); ("Leap", leap)]
    = (Raise ValueError, [("Anna", anna); ("Leap", leap)]).
Proof.
  apply (upcoming_birthdays_feb29_raises (mkdate 2023 3 1) _ leap
           (mkdate 2000 2 29)).
  - simpl. right. left. reflexivity.
  - reflexivity.
  - reflexivity.
  - reflexivity.
  - reflexivity.
Defined.

(** C5 as stated fails: with two phones equal to the old one, the code
    replaces the second as well. *)
Lemma edit_phone_changes_later_duplicate :
  let r := mkRecord "Anna" ["1111111111"; "1111111111"] None in
  phones (snd (edit_phone "1111111111" "2222222222" r))
    = ["2222222222"; "2222222222"] /\
  spec_edit_first "1111111111" "2222222222" (phones r)
    = ["2222222222"; "1111111111"] /\
  phones (snd (edit_phone "1111111111" "2222222222" r))
    <> spec_edit_first "1111111111" "2222222222" (phones r).
Proof. repeat split. discriminate. Qed.

Lemma edit_phone_replaces_every_match_witness :
  exists r',
    edit_phone "1234567890" "0000000000" anna = (Ok tt, r') /\
    nth_error (phones r') 0 = Some "0000000000" /\
    (~ In "1234567890" (phones bob) ->
     edit_phone "1234567890" "0000000000" bob = (Ok tt, bob)).
Proof.
  destruct (edit_phone_replaces_every_match "1234567890" "0000000000" anna)
    as (r' & Hrun & _ & _ & _ & Hnth & _).
  destruct (edit_phone_replaces_every_match "1234567890" "0000000000" bob)
    as (r2 & Hrun2 & _ & _ & _ & _ & Hsame).
  exists r'. split; [exact Hrun|]. split.
  - apply (Hnth 0%nat "1234567890"). reflexivity.
  - intros Habs. rewrite Hrun2. now rewrite (Hsame Habs).
Defined.

(** C6 on the code.  edit_phone stores a new value that validate_phone
    rejects, and returns without raising; so does change_contact. *)
Theorem edit_phone_stores_invalid_phone :
  validate_phone ascii_isdigit "abc"
    = Raise (ValidationException "Phone number must be 10 digits") /\
  edit_phone "1234567890" "abc" anna
    = (Ok tt, mkRecord "Anna" ["abc"] (Some (mkdate 1990 6 15))) /\
  change_contact "Anna" "1234567890" "abc" [("Anna", anna)]
    = (Ok "Phone number updated.",
       [("Anna", mkRecord "Anna" ["abc"] (Some (mkdate 1990 6 15)))]).
Proof. repeat split. Qed.

(** C7 as stated fails: the empty string is not a valid phone, and
    add_contact with it raises nothing. *)
Lemma add_contact_empty_phone_returns :
  dict_get "Anna" ([] : AddressBook) = None /\
  isalpha ascii_isalpha "Anna" = true /\
  validate_phone ascii_isdigit ""
    = Raise (ValidationException "Phone number must be 10 digits") /\
  add_contact ascii_isalpha ascii_isdigit "Anna" (Some "") []
    = (Ok "Contact added.", [("Anna", mkRecord "Anna" [] None)]) /\
  (forall e, fst (add_contact ascii_isalpha ascii_isdigit "Anna" (Some "") []) <> Raise e).
Proof. repeat split. discriminate. Qed.

Lemma add_contact_invalid_phone_keeps_record_witness :
  add_contact ascii_isalpha ascii_isdigit "Dora" (Some "12345") sample_book =
    (Raise (ValidationException "Phone number must be 10 digits"),
     (sample_book ++ [("Dora", mkRecord "Dora" [] None)])%list) /\
  dict_get "Dora" (snd (add_contact ascii_isalpha ascii_isdigit "Dora" (Some "12345") sample_book))
    = Some (mkRecord "Dora" [] None).
Proof.
  apply (add_contact_invalid_phone_keeps_record ascii_isalpha ascii_isdigit).
  - reflexivity.
  - reflexivity.
  - discriminate.
  - intros [_ H]. discriminate H.
Defined.

Lemma change_contact_not_found_iff_witness :
  change_contact "Dora" "1234567890" "0000000000" sample_book
    = (Raise (KeyError "Contact not found."), sample_book) /\
  change_contact "Anna" "5555555555" "0000000000" sample_book
    = (Ok "Phone number updated.", sample_book) /\
  dict_get "Anna"
    (snd (change_contact "Anna" "5555555555" "0000000000" sample_book))
    = Some anna.
Proof.
  destruct (change_contact_not_found_iff "Dora" "1234567890" "0000000000"
              sample_book) as (_ & Hnone & _).
  destruct (change_contact_not_found_iff "Anna" "5555555555" "0000000000"
              sample_book) as (_ & _ & _ & Hsame).
  split; [apply Hnone; reflexivity|].
  apply (Hsame anna); [reflexivity|].
  simpl. intros [H | []]. discriminate H.
Defined.

Lemma exec_preserves_store_inv_witness :
  op_ok ascii_isalpha (AddRecord (mkRecord "Dora" ["1234567890"] None)) /\
  store_inv ascii_isalpha sample_book /\
  store_inv ascii_isalpha
    (exec ascii_isalpha ascii_isdigit
       (AddRecord (mkRecord "Dora" ["1234567890"] None)) sample_book).
Proof.
  split; [reflexivity|]. split; [exact sample_book_inv|].
  apply exec_preserves_store_inv; [reflexivity | exact sample_book_inv].
Defined.

Lemma add_contact_invalid_name_unchanged_witness :
  add_contact ascii_isalpha ascii_isdigit "D0ra" (Some "1234567890") sample_book =
    (Raise (ValidationException "Name must contain only letters"),
     sample_book) /\
  dict_get "D0ra" (snd (add_contact ascii_isalpha ascii_isdigit "D0ra" (Some "1234567890") sample_book))
    = None.
Proof.
  apply (add_contact_invalid_name_unchanged ascii_isalpha ascii_isdigit).
  - right. exists "0"%char. split; [simpl; tauto | reflexivity].
  - reflexivity.
Defined.


(** * The further properties on sample data *)

Lemma sample_book_phones_valid : phones_valid ascii_isdigit sample_book.
Proof.
  intros k r [[= <- <-] | [[= <- <-] | [[= <- <-] | []]]] p Hp;
    simpl in Hp; try tauto.
  destruct Hp as [<- | []]. split; reflexivity.
Qed.

Lemma add_phone_appends_or_rejects_witness :
  add_phone ascii_isdigit "0987654321" anna
    = (Ok tt, mkRecord "Anna" ["1234567890"; "0987654321"]
                (Some (mkdate 1990 6 15))) /\
  add_phone ascii_isdigit "12-34" anna
    = (Raise (ValidationException "Phone number must be 10 digits"), anna).
Proof.
  split.
  - apply (proj1 (add_phone_appends_or_rejects ascii_isdigit "0987654321" anna)).
    split; reflexivity.
  - apply (proj2 (add_phone_appends_or_rejects ascii_isdigit "12-34" anna)).
    intros [H _]. discriminate H.
Defined.

Lemma find_phone_first_match_witness :
  fst (find_phone "5555555555"
         (mkRecord "Eve" ["1111111111"; "5555555555"; "5555555555"] None))
    = Ok (Some 1%nat) /\
  fst (find_phone "5555555555" anna) = Ok None.
Proof.
  split.
  - apply (proj1 (find_phone_first_match "5555555555" _)). split.
    + reflexivity.
    + intros [|k] Hk; [discriminate | lia].
  - apply (proj1 (proj2 (find_phone_first_match "5555555555" anna))).
    simpl. intros [H | []]. discriminate H.
Defined.

Lemma edit_phone_then_find_witness :
  fst (find_phone "1234567890"
         (snd (edit_phone "1234567890" "0000000000" anna))) = Ok None /\
  (In "1234567890" (phones anna) ->
   exists i,
     fst (find_phone "0000000000"
            (snd (edit_phone "1234567890" "0000000000" anna))) = Ok (Some i)).
Proof.
  apply (edit_phone_then_find "1234567890" "0000000000" anna). discriminate.
Defined.

Lemma remove_phone_keeps_other_phones_witness :
  exists r',
    remove_phone "5555555555" anna = (Ok tt, r') /\
    phones r' = ["1234567890"] /\ r' = anna.
Proof.
  destruct (remove_phone_keeps_other_phones "5555555555" anna)
    as (r' & Hrun & _ & _ & _ & _ & _ & Hsame).
  exists r'. split; [exact Hrun|].
  assert (r' = anna) as ->; [|now split].
  apply Hsame. simpl. intros [H | []]. discriminate H.
Defined.

Lemma remove_phone_all_when_not_adjacent_witness :
  phones (snd (remove_phone "5555555555"
     (mkRecord "Eve" ["5555555555"; "1111111111"; "5555555555"] None)))
    = ["1111111111"].
Proof.
  apply (proj1 (remove_phone_all_when_not_adjacent "5555555555"
    (mkRecord "Eve" ["5555555555"; "1111111111"; "5555555555"] None)
    ltac:(intros [|[|[|i]]]; simpl; try discriminate; now destruct i))).
Defined.

Lemma remove_phone_of_copies_witness :
  phones (snd (remove_phone "5555555555"
     (mkRecord "Eve" ["5555555555"; "5555555555"; "5555555555"] None)))
    = ["5555555555"].
Proof.
  apply (remove_phone_of_copies "5555555555" 3
    (mkRecord "Eve" ["5555555555"; "5555555555"; "5555555555"] None)).
  reflexivity.
Defined.

Lemma add_record_then_find_witness :
  fst (find "Bob" (snd (add_record leap sample_book))) = fst (find "Bob" sample_book).
Proof.
  apply (proj1 (proj2 (add_record_then_find leap sample_book))). discriminate.
Defined.

Lemma delete_removes_or_raises_witness :
  delete "Dora" sample_book = (Raise (KeyError "Dora"), sample_book) /\
  exists book',
    delete "Bob" sample_book = (Ok tt, book') /\
    List.length sample_book = S (List.length book') /\
    (forall k, k <> "Bob" -> dict_get k book' = dict_get k sample_book) /\
    (NoDup (dict_keys sample_book) -> dict_get "Bob" book' = None).
Proof.
  split.
  - apply (proj1 (delete_removes_or_raises "Dora" sample_book)). reflexivity.
  - apply (proj2 (delete_removes_or_raises "Bob" sample_book) bob). reflexivity.
Defined.

Lemma add_contact_new_with_phone_witness :
  add_contact ascii_isalpha ascii_isdigit "Dora" (Some "0987654321") sample_book
    = (Ok "Contact added.",
       (sample_book ++ [("Dora", mkRecord "Dora" ["0987654321"] None)])%list) /\
  fst (show_phone "Dora"
         (snd (add_contact ascii_isalpha ascii_isdigit "Dora"
                 (Some "0987654321") sample_book))) = Ok "0987654321".
Proof.
  apply (add_contact_new_with_phone ascii_isalpha ascii_isdigit).
  - reflexivity.
  - reflexivity.
  - split; reflexivity.
Defined.

Lemma add_contact_existing_appends_witness :
  fst (show_phone "Anna"
         (snd (add_contact ascii_isalpha ascii_isdigit "Anna"
                 (Some "0000000000") sample_book)))
    = Ok "1234567890; 0000000000".
Proof.
  apply (proj1 (proj2 (add_contact_existing_appends ascii_isalpha ascii_isdigit
           "Anna" "0000000000" anna sample_book eq_refl
           (conj eq_refl eq_refl)))).
Defined.

Lemma add_contact_without_phone_witness :
  add_contact ascii_isalpha ascii_isdigit "Anna" (Some "") sample_book
    = (Ok "Contact updated.", sample_book).
Proof.
  apply (add_contact_without_phone ascii_isalpha ascii_isdigit "Anna" (Some "")
           anna sample_book).
  - reflexivity.
  - right. reflexivity.
Defined.

Lemma add_contact_then_delete_witness :
  delete "Dora"
    (snd (add_contact ascii_isalpha ascii_isdigit "Dora" (Some "12")
            sample_book))
    = (Ok tt, sample_book).
Proof.
  apply (add_contact_then_delete ascii_isalpha ascii_isdigit); reflexivity.
Defined.

Lemma change_contact_replaces_witness :
  exists r',
    change_contact "Anna" "1234567890" "0000000000" sample_book
      = (Ok "Phone number updated.", dict_set "Anna" r' sample_book) /\
    List.length (phones r') = 1%nat /\
    ~ In "1234567890" (phones r').
Proof.
  destruct (change_contact_replaces "Anna" "1234567890" "0000000000" anna
              sample_book eq_refl)
    as (r' & Hrun & _ & _ & _ & Hlen & Hold & _).
  exists r'. split; [exact Hrun|]. split; [exact Hlen|].
  apply Hold. discriminate.
Defined.

Lemma exec_preserves_phones_valid_witness :
  phones_valid ascii_isdigit
    (exec ascii_isalpha ascii_isdigit
       (ChangeContact "Anna" "1234567890" "0987654321") sample_book).
Proof.
  apply exec_preserves_phones_valid.
  - split; reflexivity.
  - exact sample_book_phones_valid.
Defined.

Lemma show_all_sentinel_iff_empty_witness :
  fst (show_all sample_book) <> Ok "No contacts available.".
Proof.
  intros H.
  apply (proj1 (proj1 (show_all_sentinel_iff_empty sample_book))) in H.
  discriminate H.
Defined.

Lemma this_year_birthday_not_past_witness :
  0 <= days_between (mkdate 2025 6 9) monday_10_june <= 366 /\
  in_next_7_days monday_10_june (mkdate 2025 6 9)
    = (days_between (mkdate 2025 6 9) monday_10_june <=? 7).
Proof.
  apply (this_year_birthday_not_past monday_10_june (mkdate 1990 6 9));
    reflexivity.
Defined.

Lemma upcoming_entries_describe_witness :
  exists r b t c,
    In r (dict_values sample_book) /\ birthday r = Some b /\
    this_year_birthday monday_10_june b = Ok t /\
    congratulation_date t = Ok c /\
    "Anna" = name r /\
    "17.06.2024" = strftime_dmY c /\ "2024.06.17" = strftime_Ymd c /\
    0 <= weekday c <= 4 /\
    0 <= days_between t monday_10_june <= 7 /\
    0 <= days_between c t <= 2 /\
    days_between c monday_10_june <= 9.
Proof.
  apply (upcoming_entries_describe monday_10_june sample_book
           [mkEntry "Anna" "17.06.2024" "2024.06.17";
            mkEntry "Bob" "12.06.2024" "2024.06.12"]
           eq_refl (mkEntry "Anna" "17.06.2024" "2024.06.17")).
  left. reflexivity.
Defined.

Lemma birthday_today_is_upcoming_witness :
  exists x,
    In x [mkEntry "Eve" "10.06.2024" "2024.06.10"] /\
    entry_name x = "Eve".
Proof.
  apply (birthday_today_is_upcoming monday_10_june (mkdate 1985 6 10)
           (mkRecord "Eve" [] (Some (mkdate 1985 6 10)))
           [("Eve", mkRecord "Eve" [] (Some (mkdate 1985 6 10)))]).
  - reflexivity.
  - left. reflexivity.
  - reflexivity.
  - reflexivity.
  - reflexivity.
  - reflexivity.
Defined.

Lemma feb29_birthday_occurrence_witness :
  this_year_birthday (mkdate 2024 3 1) (mkdate 2000 2 29) = Raise ValueError /\
  this_year_birthday (mkdate 2024 2 27) (mkdate 2000 2 29)
    = Ok (mkdate 2024 2 29).
Proof.
  split.
  - apply (feb29_birthday_occurrence (mkdate 2024 3 1) (mkdate 2000 2 29));
      reflexivity.
  - apply (feb29_birthday_occurrence (mkdate 2024 2 27) (mkdate 2000 2 29));
      reflexivity.
Defined.

Lemma upcoming_birthdays_raises_iff_witness :
  fst (get_upcoming_birthdays (mkdate 2024 3 1) [("Anna", anna); ("Leap", leap)])
    = Raise ValueError.
Proof.
  apply (proj1 (upcoming_birthdays_raises_iff (mkdate 2024 3 1)
                  [("Anna", anna); ("Leap", leap)])).
  exists leap, (mkdate 2000 2 29). repeat split. simpl. right. now left.
Defined.

Lemma this_year_birthday_last_year_witness :
  this_year_birthday (mkdate 9999 12 31) (mkdate 1990 6 15) = Raise ValueError.
Proof.
  apply (this_year_birthday_last_year (mkdate 9999 12 31) (mkdate 1990 6 15));
    reflexivity.
Defined.

Lemma parse_input_blank_iff_witness :
  parse_input ascii_isspace ascii_lower "   " = Ok ("", []).
Proof.
  apply (proj2 (parse_input_blank_iff ascii_isspace ascii_lower "   ")).
  reflexivity.
Defined.

Lemma parse_input_words_witness :
  exists first args,
    split ascii_isspace "  ADD Anna  1234567890 " = first :: args /\
    parse_input ascii_isspace ascii_lower "  ADD Anna  1234567890 "
      = Ok (lower ascii_lower first, args) /\
    Forall (fun w => w <> "" /\ no_space ascii_isspace w) (first :: args).
Proof.
  apply (parse_input_words ascii_isspace ascii_lower). discriminate.
Defined.
